(** * LibDCBridge: the BLE stream adapter, device identification and the
      device session of configuredc.c

    A shallow embedding of [Sources/LibDCBridge/src/configuredc.c].

    - C strings are [string]s (the terminating NUL is implicit), a nullable
      [char *] is an [option string];
    - [unsigned int] and [size_t] values are [Z]s, conversions between the
      two widths are written out ([to_uint]); the data model is LP64, the one
      of the 64-bit Apple targets the package builds for;
    - heap blocks live in a finite map from addresses to the kind of block;
      a pointer is an address together with the (immutable) value it points
      to, a nullable pointer is an [option];
    - every call that leaves the translation unit (libdivecomputer, the BLE
      bridge, the C allocator, the application's fingerprint callback) is
      appended to a trace, and its outcome is read from an [environment]
      that may depend on the trace so far. *)

From Stdlib Require Import ZArith Ascii String List Lia Bool.
From stdpp Require Import base option gmap strings list fin_maps.

Local Open Scope string_scope.
Local Open Scope Z_scope.

(** ** The C library's string functions *)

Module CString.

Definition strlen (s : string) : nat := String.length s.

(** The sign of the difference of two (unsigned) characters; the C
    standard fixes only the sign of what the comparisons return. *)
Definition char_cmp (a b : ascii) : Z :=
  if (nat_of_ascii a <? nat_of_ascii b)%nat then (-1)%Z else 1%Z.

(** [strcmp]: zero when the strings are equal, otherwise the sign given
    by the first pair of differing characters, the end of a string
    coming before every character. *)
Fixpoint strcmp (s1 s2 : string) : Z :=
  match s1, s2 with
  | EmptyString, EmptyString => 0
  | EmptyString, String _ _ => -1
  | String _ _, EmptyString => 1
  | String a r1, String b r2 =>
      if Ascii.eqb a b then strcmp r1 r2 else char_cmp a b
  end.

(** [strncmp]: as [strcmp], over at most [n] characters. *)
Fixpoint strncmp (s1 s2 : string) (n : nat) {struct n} : Z :=
  match n with
  | O => 0
  | S n' =>
      match s1, s2 with
      | EmptyString, EmptyString => 0
      | EmptyString, String _ _ => -1
      | String _ _, EmptyString => 1
      | String a r1, String b r2 =>
          if Ascii.eqb a b then strncmp r1 r2 n' else char_cmp a b
      end
  end.

(** [strstr]: the offset of the first occurrence of [needle] in
    [haystack], [None] for the null pointer. *)
Fixpoint strstr (haystack needle : string) {struct haystack} : option nat :=
  if Z.eqb (strncmp haystack needle (strlen needle)) 0 then Some O
  else match haystack with
       | EmptyString => None
       | String _ rest => option_map S (strstr rest needle)
       end.

(** Substring containment and prefix, the relations the functions decide. *)
Definition contains (key name : string) : Prop :=
  exists pre post, name = pre ++ key ++ post.

Definition starts_with (key name : string) : Prop :=
  exists post, name = key ++ post.

End CString.

Import CString.

(** ** The name pattern table *)

Inductive match_type_t := MATCH_EXACT | MATCH_PREFIX | MATCH_CONTAINS.

Record name_pattern := NamePattern {
  np_prefix : string;
  np_vendor : string;
  np_product : string;
  np_match_type : match_type_t
}.

Global Instance match_type_t_eq_dec : EqDecision match_type_t.
Proof. solve_decision. Defined.

Global Instance name_pattern_eq_dec : EqDecision name_pattern.
Proof. solve_decision. Defined.

Definition name_patterns : list name_pattern :=
  [ NamePattern "Predator" "Shearwater" "Predator" MATCH_EXACT;
    NamePattern "Perdix 2" "Shearwater" "Perdix 2" MATCH_EXACT;
    NamePattern "Petrel 3" "Shearwater" "Petrel 3" MATCH_EXACT;
    NamePattern "Petrel" "Shearwater" "Petrel 2" MATCH_EXACT;
    NamePattern "Perdix" "Shearwater" "Perdix" MATCH_EXACT;
    NamePattern "Teric" "Shearwater" "Teric" MATCH_EXACT;
    NamePattern "Peregrine TX" "Shearwater" "Peregrine TX" MATCH_EXACT;
    NamePattern "Peregrine" "Shearwater" "Peregrine TX" MATCH_EXACT;
    NamePattern "NERD 2" "Shearwater" "NERD 2" MATCH_EXACT;
    NamePattern "NERD" "Shearwater" "NERD" MATCH_EXACT;
    NamePattern "Tern" "Shearwater" "Tern" MATCH_EXACT;
    NamePattern "EON Steel" "Suunto" "EON Steel" MATCH_EXACT;
    NamePattern "Suunto D5" "Suunto" "D5" MATCH_EXACT;
    NamePattern "EON Core" "Suunto" "EON Core" MATCH_EXACT;
    NamePattern "G2" "Scubapro" "G2" MATCH_EXACT;
    NamePattern "HUD" "Scubapro" "G2 HUD" MATCH_EXACT;
    NamePattern "G3" "Scubapro" "G3" MATCH_EXACT;
    NamePattern "Aladin" "Scubapro" "Aladin Sport Matrix" MATCH_EXACT;
    NamePattern "A1" "Scubapro" "Aladin A1" MATCH_EXACT;
    NamePattern "A2" "Scubapro" "Aladin A2" MATCH_EXACT;
    NamePattern "Luna 2.0 AI" "Scubapro" "Luna 2.0 AI" MATCH_EXACT;
    NamePattern "Luna 2.0" "Scubapro" "Luna 2.0" MATCH_EXACT;
    NamePattern "Mares Genius" "Mares" "Genius" MATCH_EXACT;
    NamePattern "Sirius" "Mares" "Sirius" MATCH_EXACT;
    NamePattern "Quad Ci" "Mares" "Quad Ci" MATCH_EXACT;
    NamePattern "Puck4" "Mares" "Puck 4" MATCH_EXACT;
    NamePattern "CARESIO_" "Cressi" "Cartesio" MATCH_PREFIX;
    NamePattern "GOA_" "Cressi" "Goa" MATCH_PREFIX;
    NamePattern "Leonardo" "Cressi" "Leonardo 2.0" MATCH_CONTAINS;
    NamePattern "Donatello" "Cressi" "Donatello" MATCH_CONTAINS;
    NamePattern "Michelangelo" "Cressi" "Michelangelo" MATCH_CONTAINS;
    NamePattern "Neon" "Cressi" "Neon" MATCH_CONTAINS;
    NamePattern "Nepto" "Cressi" "Nepto" MATCH_CONTAINS;
    NamePattern "OSTC 3" "Heinrichs Weikamp" "OSTC Plus" MATCH_EXACT;
    NamePattern "OSTC s#" "Heinrichs Weikamp" "OSTC Sport" MATCH_EXACT;
    NamePattern "OSTC s " "Heinrichs Weikamp" "OSTC Sport" MATCH_EXACT;
    NamePattern "OSTC 4-" "Heinrichs Weikamp" "OSTC 4" MATCH_EXACT;
    NamePattern "OSTC 2-" "Heinrichs Weikamp" "OSTC 2N" MATCH_EXACT;
    NamePattern "OSTC + " "Heinrichs Weikamp" "OSTC 2" MATCH_EXACT;
    NamePattern "OSTC" "Heinrichs Weikamp" "OSTC 2" MATCH_EXACT;
    NamePattern "COSMIQ" "Deepblu" "Cosmiq+" MATCH_EXACT;
    NamePattern "S1" "Oceans" "S1" MATCH_EXACT;
    NamePattern "McLean Extreme" "McLean" "Extreme" MATCH_EXACT;
    NamePattern "DiveComputer" "Tecdiving" "DiveComputer.eu" MATCH_EXACT;
    NamePattern "DS" "Ratio" "iX3M 2021 GPS Easy" MATCH_EXACT;
    NamePattern "IX5M" "Ratio" "iX3M 2021 GPS Easy" MATCH_EXACT;
    NamePattern "RATIO-" "Ratio" "iX3M 2021 GPS Easy" MATCH_EXACT ].

(** The [switch] on the match type in the body of the loop of
    [find_descriptor_by_name]: the value of [matches] for one entry. *)
Definition not_null {A} (p : option A) : bool :=
  match p with Some _ => true | None => false end.

Definition pattern_matches (p : name_pattern) (name : string) : bool :=
  match np_match_type p with
  | MATCH_EXACT => not_null (strstr name (np_prefix p))
  | MATCH_PREFIX =>
      Z.eqb (strncmp name (np_prefix p) (strlen (np_prefix p))) 0
  | MATCH_CONTAINS => not_null (strstr name (np_prefix p))
  end.

(** ** libdivecomputer's interface

    The library is an external collaborator: its types are opaque to
    configuredc.c, which sees status codes, accessor functions on
    descriptors and handles. *)

Inductive dc_status_t :=
| DC_STATUS_SUCCESS | DC_STATUS_DONE | DC_STATUS_UNSUPPORTED
| DC_STATUS_INVALIDARGS | DC_STATUS_NOMEMORY | DC_STATUS_NODEVICE
| DC_STATUS_NOACCESS | DC_STATUS_IO | DC_STATUS_TIMEOUT
| DC_STATUS_PROTOCOL | DC_STATUS_DATAFORMAT | DC_STATUS_CANCELLED.

Global Instance dc_status_t_eq_dec : EqDecision dc_status_t.
Proof. solve_decision. Defined.

Definition is_success (rc : dc_status_t) : bool :=
  match rc with DC_STATUS_SUCCESS => true | _ => false end.

(** [dc_family_t] is an enumeration whose null member is 0. *)
Definition dc_family_t := Z.
Definition DC_FAMILY_NULL : dc_family_t := 0.

(** Transports are bits of a mask; BLE is bit 5. *)
Definition DC_TRANSPORT_BLE : Z := Z.shiftl 1 5.

(** Event types are bits of a mask as well. *)
Definition DC_EVENT_WAITING_bit : Z := Z.shiftl 1 0.
Definition DC_EVENT_PROGRESS_bit : Z := Z.shiftl 1 1.
Definition DC_EVENT_DEVINFO_bit : Z := Z.shiftl 1 2.
Definition DC_EVENT_CLOCK_bit : Z := Z.shiftl 1 3.
Definition DC_EVENT_VENDOR_bit : Z := Z.shiftl 1 4.

(** Conversion to [unsigned int] (32 bits); [size_t] has 64 bits. *)
Definition to_uint (z : Z) : Z := z mod 2 ^ 32.
Definition to_size_t (z : Z) : Z := z mod 2 ^ 64.

(** A descriptor, as seen through [dc_descriptor_get_vendor],
    [dc_descriptor_get_product], [dc_descriptor_get_type],
    [dc_descriptor_get_model], [dc_descriptor_get_transports] and
    [dc_descriptor_filter]. *)
Record dc_descriptor_t := Descriptor {
  dc_descriptor_get_vendor : option string;
  dc_descriptor_get_product : option string;
  dc_descriptor_get_type : dc_family_t;
  dc_descriptor_get_model : Z;
  dc_descriptor_get_transports : Z;
  dc_descriptor_filter : Z -> string -> bool
}.

Record dc_event_devinfo_t := DevInfo {
  devinfo_model : Z;
  devinfo_firmware : Z;
  devinfo_serial : Z
}.

Record dc_event_progress_t := Progress {
  progress_current : Z;
  progress_maximum : Z
}.

Record dc_event_clock_t := Clock {
  clock_devtime : Z;
  clock_systime : Z
}.

(** An event as the device hands it to the callback: its type together
    with what the [data] pointer refers to for that type. *)
Inductive dc_event :=
| DC_EVENT_WAITING
| DC_EVENT_PROGRESS (progress : dc_event_progress_t)
| DC_EVENT_DEVINFO (devinfo : dc_event_devinfo_t)
| DC_EVENT_CLOCK (clock : dc_event_clock_t)
| DC_EVENT_VENDOR (data : list Z).

(** ** Memory and the trace of outgoing calls *)

Definition loc := nat.

(** The kinds of heap blocks the unit deals with. *)
Inductive block :=
| B_context        (* dc_context_t, from dc_context_new *)
| B_descriptor     (* dc_descriptor_t, handed out by the catalog iterator *)
| B_ble_object     (* ble_object_t, from createBLEObject *)
| B_ble_stream     (* ble_stream_t, from malloc *)
| B_device         (* dc_device_t, from dc_device_open *)
| B_bytes          (* a malloc'ed buffer: fingerprint bytes, a string *)
| B_device_data.   (* device_data_t, from calloc *)

Global Instance block_eq_dec : EqDecision block.
Proof. solve_decision. Defined.

(** A non-null pointer: the address of a live or dead block, with the
    value that was stored there when the pointer was made. None of the
    pointees below is written to after its creation. *)
Record pointer (A : Type) := Ptr { address : loc; pointee : A }.
Arguments Ptr {A} _ _.
Arguments address {A} _.
Arguments pointee {A} _.

(** The calls that leave the unit, with their arguments. The last two are
    not calls out: they mark the entries into [open_ble_device] and
    [get_device_info_from_name], so that a trace tells which of the two
    [open_ble_device_with_identification] went into, and when. *)
Inductive event :=
| E_dc_context_new
| E_dc_context_free (context : loc)
| E_dc_descriptor_iterator
| E_dc_descriptor_free (descriptor : loc)
| E_initializeBLEManager
| E_createBLEObject
| E_connectToBLEDevice (io : loc) (devaddr : string)
| E_freeBLEObject (io : loc)
| E_ble_close (io : loc)
| E_malloc
| E_calloc
| E_free (p : loc)
| E_dc_device_open (context : option loc) (descriptor iostream : loc)
| E_dc_device_set_events (device : loc) (events : Z)
| E_dc_device_close (device : loc)
| E_dc_iostream_close (iostream : loc)
| E_lookup_fingerprint (context : option loc) (device_type serial : string)
| E_dc_device_set_fingerprint (device : option loc) (data : loc) (size : Z)
| E_enter_open_ble_device (devaddr : option string) (family : dc_family_t)
    (model : Z)
| E_enter_get_device_info_from_name (name : string).

Global Instance event_eq_dec : EqDecision event.
Proof. solve_decision. Defined.

Record state := State { heap : gmap loc block; trace : list event }.

(** What the outside answers. Every answer may depend on the calls made so
    far, so that two calls of one function need not agree. *)
Record environment := Environment {
  env_catalog : list dc_descriptor_t;
  env_dc_context_new : list event -> dc_status_t;
  env_dc_descriptor_iterator : list event -> dc_status_t;
  env_createBLEObject : list event -> bool;
  env_connectToBLEDevice : list event -> string -> bool;
  env_malloc : list event -> bool;
  env_ble_close : list event -> dc_status_t;
  env_dc_device_open : list event -> dc_descriptor_t -> dc_status_t;
  env_dc_device_set_events : list event -> dc_status_t;
  env_dc_device_set_fingerprint : list event -> dc_status_t;
  env_dc_device_close : list event -> dc_status_t
}.

(** ** The state monad of the unit *)

Definition M (A : Type) : Type := state -> A * state.

Global Instance M_ret : MRet M := fun A (a : A) st => (a, st).

Global Instance M_bind : MBind M :=
  fun A B (f : A -> M B) (m : M A) st => let (a, st') := m st in f a st'.

Definition history : M (list event) := fun st => (trace st, st).

Definition emit (e : event) : M unit :=
  fun st => (tt, State (heap st) (trace st ++ [e])).

Definition alloc (b : block) : M loc :=
  fun st => let l := fresh (dom (heap st)) in
            (l, State (<[l := b]> (heap st)) (trace st)).

Definition dealloc (l : loc) : M unit :=
  fun st => (tt, State (delete l (heap st)) (trace st)).

Definition initial_state : state := State ∅ [].

(** ** The stream and the session structures *)

(** [ble_stream_t]: the base stream (its vtable is the constant
    [ble_iostream_vtable], whose [close] entry is [ble_stream_close] and
    whose [read] entry is [ble_stream_read]) and the BLE object. *)
Record ble_stream_t := BleStream {
  base_context : option loc;
  base_transport : Z;
  ble_object : loc
}.

(** The application's fingerprint callback, called with the callback
    context, the device type and the serial, and given the address of a
    [size_t] for the size: the bytes of the buffer it returns ([None] for
    the null pointer) and the value it leaves in the size. *)
Definition lookup_fingerprint_t : Type :=
  list event -> option loc -> string -> string -> option (list Z) * Z.

Record device_data_t := DeviceData {
  dd_device : option loc;
  dd_context : option loc;
  dd_iostream : option (pointer ble_stream_t);
  dd_descriptor : option (pointer dc_descriptor_t);
  dd_have_devinfo : Z;
  dd_devinfo : dc_event_devinfo_t;
  dd_have_progress : Z;
  dd_progress : dc_event_progress_t;
  dd_have_clock : Z;
  dd_clock : dc_event_clock_t;
  dd_fingerprint : option (pointer (list Z));
  dd_fsize : Z;
  dd_fingerprint_context : option loc;
  dd_lookup_fingerprint : option lookup_fingerprint_t;
  dd_model : option (pointer string);
  dd_fdeviceid : Z;
  dd_fdiveid : Z
}.

(** [memset(data, 0, sizeof(device_data_t))] *)
Definition device_data_zero : device_data_t :=
  DeviceData None None None None 0 (DevInfo 0 0 0) 0 (Progress 0 0) 0
    (Clock 0 0) None 0 None None None 0 0.

Definition set_device (v : option loc) (d : device_data_t) :=
  DeviceData v (dd_context d) (dd_iostream d) (dd_descriptor d)
    (dd_have_devinfo d) (dd_devinfo d) (dd_have_progress d) (dd_progress d)
    (dd_have_clock d) (dd_clock d) (dd_fingerprint d) (dd_fsize d)
    (dd_fingerprint_context d) (dd_lookup_fingerprint d) (dd_model d)
    (dd_fdeviceid d) (dd_fdiveid d).

Definition set_context (v : option loc) (d : device_data_t) :=
  DeviceData (dd_device d) v (dd_iostream d) (dd_descriptor d)
    (dd_have_devinfo d) (dd_devinfo d) (dd_have_progress d) (dd_progress d)
    (dd_have_clock d) (dd_clock d) (dd_fingerprint d) (dd_fsize d)
    (dd_fingerprint_context d) (dd_lookup_fingerprint d) (dd_model d)
    (dd_fdeviceid d) (dd_fdiveid d).

Definition set_iostream (v : option (pointer ble_stream_t))
    (d : device_data_t) :=
  DeviceData (dd_device d) (dd_context d) v (dd_descriptor d)
    (dd_have_devinfo d) (dd_devinfo d) (dd_have_progress d) (dd_progress d)
    (dd_have_clock d) (dd_clock d) (dd_fingerprint d) (dd_fsize d)
    (dd_fingerprint_context d) (dd_lookup_fingerprint d) (dd_model d)
    (dd_fdeviceid d) (dd_fdiveid d).

Definition set_descriptor (v : option (pointer dc_descriptor_t))
    (d : device_data_t) :=
  DeviceData (dd_device d) (dd_context d) (dd_iostream d) v
    (dd_have_devinfo d) (dd_devinfo d) (dd_have_progress d) (dd_progress d)
    (dd_have_clock d) (dd_clock d) (dd_fingerprint d) (dd_fsize d)
    (dd_fingerprint_context d) (dd_lookup_fingerprint d) (dd_model d)
    (dd_fdeviceid d) (dd_fdiveid d).

Definition set_devinfo (have : Z) (v : dc_event_devinfo_t)
    (d : device_data_t) :=
  DeviceData (dd_device d) (dd_context d) (dd_iostream d) (dd_descriptor d)
    have v (dd_have_progress d) (dd_progress d)
    (dd_have_clock d) (dd_clock d) (dd_fingerprint d) (dd_fsize d)
    (dd_fingerprint_context d) (dd_lookup_fingerprint d) (dd_model d)
    (dd_fdeviceid d) (dd_fdiveid d).

Definition set_progress (have : Z) (v : dc_event_progress_t)
    (d : device_data_t) :=
  DeviceData (dd_device d) (dd_context d) (dd_iostream d) (dd_descriptor d)
    (dd_have_devinfo d) (dd_devinfo d) have v
    (dd_have_clock d) (dd_clock d) (dd_fingerprint d) (dd_fsize d)
    (dd_fingerprint_context d) (dd_lookup_fingerprint d) (dd_model d)
    (dd_fdeviceid d) (dd_fdiveid d).

Definition set_fingerprint (v : option (pointer (list Z))) (size : Z)
    (d : device_data_t) :=
  DeviceData (dd_device d) (dd_context d) (dd_iostream d) (dd_descriptor d)
    (dd_have_devinfo d) (dd_devinfo d) (dd_have_progress d) (dd_progress d)
    (dd_have_clock d) (dd_clock d) v size
    (dd_fingerprint_context d) (dd_lookup_fingerprint d) (dd_model d)
    (dd_fdeviceid d) (dd_fdiveid d).

Definition set_model (v : option (pointer string)) (d : device_data_t) :=
  DeviceData (dd_device d) (dd_context d) (dd_iostream d) (dd_descriptor d)
    (dd_have_devinfo d) (dd_devinfo d) (dd_have_progress d) (dd_progress d)
    (dd_have_clock d) (dd_clock d) (dd_fingerprint d) (dd_fsize d)
    (dd_fingerprint_context d) (dd_lookup_fingerprint d) v
    (dd_fdeviceid d) (dd_fdiveid d).

(** ** Formatting the serial number: [snprintf(serial, 16, "%08x", v)] *)

Definition hex_digit (d : Z) : ascii :=
  nth (Z.to_nat d)
    ["0"; "1"; "2"; "3"; "4"; "5"; "6"; "7";
     "8"; "9"; "a"; "b"; "c"; "d"; "e"; "f"]%char "0"%char.

(** The digits of [v] in base 16, most significant first, without leading
    zeros (one digit for 0); [n] bounds the number of digits. *)
Fixpoint hex_digits (n : nat) (v : Z) : string :=
  match n with
  | O => ""
  | S n' =>
      if v <? 16 then String (hex_digit v) ""
      else hex_digits n' (v / 16) ++ String (hex_digit (v mod 16)) ""
  end.

Fixpoint zeros (n : nat) : string :=
  match n with O => "" | S n' => String "0" (zeros n') end.

(** The conversion [%08x] of an [unsigned int]: at least 8 digits, padded
    with zeros on the left. *)
Definition format_08x (v : Z) : string :=
  let digits := hex_digits 8 (to_uint v) in
  zeros (8 - String.length digits) ++ digits.

(** [snprintf] into a buffer of [size] characters keeps [size - 1] of them. *)
Definition snprintf_08x (size : nat) (v : Z) : string :=
  substring 0 (size - 1) (format_08x v).

(** ** The functions of configuredc.c *)

Section ConfigureDC.

Context (env : environment).

(** *** Calls that leave the unit *)

Definition dc_context_new : M (dc_status_t * option loc) :=
  h ← history;
  emit E_dc_context_new;;
  let rc := env_dc_context_new env h in
  if is_success rc then c ← alloc B_context; mret (rc, Some c)
  else mret (rc, None).

Definition dc_context_free (context : loc) : M unit :=
  emit (E_dc_context_free context);; dealloc context.

Definition dc_descriptor_iterator : M dc_status_t :=
  h ← history;
  emit E_dc_descriptor_iterator;;
  mret (env_dc_descriptor_iterator env h).

(** The loop
    [while ((rc = dc_iterator_next (iterator, &descriptor)) == DC_STATUS_SUCCESS)
       { if (test) { ...; return DC_STATUS_SUCCESS; }
         dc_descriptor_free (descriptor); }]
    over the catalog: the first descriptor that passes the test. The
    descriptors that fail it are freed as soon as they are made and the
    iterator is freed on every way out, so that only the descriptor handed
    out stays allocated. *)
Fixpoint dc_iterator_find (test : dc_descriptor_t -> bool)
    (catalog : list dc_descriptor_t) : option dc_descriptor_t :=
  match catalog with
  | [] => None
  | descriptor :: rest =>
      if test descriptor then Some descriptor
      else dc_iterator_find test rest
  end.

Definition dc_descriptor_free (descriptor : option (pointer dc_descriptor_t))
    : M unit :=
  match descriptor with
  | None => mret tt
  | Some d => emit (E_dc_descriptor_free (address d));; dealloc (address d)
  end.

Definition initializeBLEManager : M unit := emit E_initializeBLEManager.

Definition createBLEObject : M (option loc) :=
  h ← history;
  emit E_createBLEObject;;
  if env_createBLEObject env h then io ← alloc B_ble_object; mret (Some io)
  else mret None.

Definition connectToBLEDevice (io : loc) (deviceAddress : string) : M bool :=
  h ← history;
  emit (E_connectToBLEDevice io deviceAddress);;
  mret (env_connectToBLEDevice env h deviceAddress).

Definition freeBLEObject (obj : loc) : M unit :=
  emit (E_freeBLEObject obj);; dealloc obj.

Definition ble_close (io : loc) : M dc_status_t :=
  h ← history;
  emit (E_ble_close io);;
  mret (env_ble_close env h).

Definition malloc (b : block) : M (option loc) :=
  h ← history;
  emit E_malloc;;
  if env_malloc env h then p ← alloc b; mret (Some p) else mret None.

Definition calloc (b : block) : M (option loc) :=
  h ← history;
  emit E_calloc;;
  if env_malloc env h then p ← alloc b; mret (Some p) else mret None.

Definition free (p : loc) : M unit := emit (E_free p);; dealloc p.

(** [dc_device_open] rejects a null descriptor and otherwise opens the
    backend of the descriptor's family; the handle is written only on
    success. *)
Definition dc_device_open (context : option loc)
    (descriptor : option (pointer dc_descriptor_t))
    (iostream : option (pointer ble_stream_t))
    : M (dc_status_t * option loc) :=
  match descriptor, iostream with
  | Some d, Some s =>
      h ← history;
      emit (E_dc_device_open context (address d) (address s));;
      let rc := env_dc_device_open env h (pointee d) in
      if is_success rc then dev ← alloc B_device; mret (rc, Some dev)
      else mret (rc, None)
  | _, _ => mret (DC_STATUS_INVALIDARGS, None)
  end.

Definition dc_device_set_events (device : option loc) (events : Z)
    : M dc_status_t :=
  match device with
  | None => mret DC_STATUS_INVALIDARGS
  | Some dev =>
      h ← history;
      emit (E_dc_device_set_events dev events);;
      mret (env_dc_device_set_events env h)
  end.

Definition dc_device_close (device : loc) : M dc_status_t :=
  h ← history;
  emit (E_dc_device_close device);;
  dealloc device;;
  mret (env_dc_device_close env h).

(** The size parameter of [dc_device_set_fingerprint] is an
    [unsigned int]. *)
Definition dc_device_set_fingerprint (device : option loc)
    (data : pointer (list Z)) (size : Z) : M dc_status_t :=
  h ← history;
  emit (E_dc_device_set_fingerprint device (address data) (to_uint size));;
  mret (env_dc_device_set_fingerprint env h).

(** A call of the session's fingerprint callback; the buffer it returns
    is a fresh block of the heap. *)
Definition call_lookup_fingerprint (lookup : lookup_fingerprint_t)
    (context : option loc) (device_type serial : string)
    : M (option (pointer (list Z)) * Z) :=
  h ← history;
  emit (E_lookup_fingerprint context device_type serial);;
  let '(bytes, size) := lookup h context device_type serial in
  match bytes with
  | Some bs => p ← alloc B_bytes; mret (Some (Ptr p bs), to_size_t size)
  | None => mret (None, to_size_t size)
  end.

(** *** The BLE stream *)

Definition ble_iostream_create (context : option loc) (bleobj : loc)
    : M (dc_status_t * option (pointer ble_stream_t)) :=
  stream ← malloc B_ble_stream;
  match stream with
  | None => mret (DC_STATUS_NOMEMORY, None)
  | Some s =>
      mret (DC_STATUS_SUCCESS,
            Some (Ptr s (BleStream context DC_TRANSPORT_BLE bleobj)))
  end.

Definition ble_stream_close (iostream : pointer ble_stream_t)
    : M dc_status_t :=
  let s := pointee iostream in
  rc ← ble_close (ble_object s);
  freeBLEObject (ble_object s);;
  free (address iostream);;
  mret rc.

(** [dc_iostream_close] dispatches to the [close] entry of the stream's
    vtable, which is [ble_stream_close]. *)
Definition dc_iostream_close (iostream : pointer ble_stream_t)
    : M dc_status_t :=
  emit (E_dc_iostream_close (address iostream));;
  ble_stream_close iostream.

Definition ble_packet_open (context : option loc) (devaddr : string)
    : M (dc_status_t * option (pointer ble_stream_t)) :=
  initializeBLEManager;;
  io ← createBLEObject;
  match io with
  | None => mret (DC_STATUS_NOMEMORY, None)
  | Some io =>
      connected ← connectToBLEDevice io devaddr;
      if negb connected then
        freeBLEObject io;; mret (DC_STATUS_IO, None)
      else
        '(status, stream) ← ble_iostream_create context io;
        if negb (is_success status) then
          freeBLEObject io;; mret (status, None)
        else mret (DC_STATUS_SUCCESS, stream)
  end.

(** *** Device identification *)

Definition find_descriptor_by_model (family : dc_family_t) (model : Z)
    : M (dc_status_t * option (pointer dc_descriptor_t)) :=
  rc ← dc_descriptor_iterator;
  if negb (is_success rc) then mret (rc, None)
  else
    match dc_iterator_find
            (fun d => (dc_descriptor_get_type d =? family)
                      && (dc_descriptor_get_model d =? model))
            (env_catalog env) with
    | Some d =>
        p ← alloc B_descriptor; mret (DC_STATUS_SUCCESS, Some (Ptr p d))
    | None => mret (DC_STATUS_UNSUPPORTED, None)
    end.

(** The test of the inner loop of [find_descriptor_by_name]. *)
Definition vendor_product_is (vendor product : string)
    (d : dc_descriptor_t) : bool :=
  match dc_descriptor_get_vendor d, dc_descriptor_get_product d with
  | Some v, Some p => (strcmp v vendor =? 0) && (strcmp p product =? 0)
  | _, _ => false
  end.

(** The [for] loop over the pattern table. [Some] is a [return] from
    inside the loop, [None] is the loop running to its end. *)
Fixpoint scan_name_patterns (patterns : list name_pattern) (name : string)
    : M (option (dc_status_t * option (pointer dc_descriptor_t))) :=
  match patterns with
  | [] => mret None
  | pattern :: rest =>
      if pattern_matches pattern name then
        rc ← dc_descriptor_iterator;
        if negb (is_success rc) then mret (Some (rc, None))
        else
          match dc_iterator_find
                  (vendor_product_is (np_vendor pattern)
                     (np_product pattern))
                  (env_catalog env) with
          | Some d =>
              p ← alloc B_descriptor;
              mret (Some (DC_STATUS_SUCCESS, Some (Ptr p d)))
          | None => scan_name_patterns rest name
          end
      else scan_name_patterns rest name
  end.

(** The test of the fallback loop. *)
Definition ble_filter_accepts (name : string) (d : dc_descriptor_t) : bool :=
  negb (Z.land (dc_descriptor_get_transports d) DC_TRANSPORT_BLE =? 0)
  && dc_descriptor_filter d DC_TRANSPORT_BLE name.

Definition find_descriptor_by_name (name : string)
    : M (dc_status_t * option (pointer dc_descriptor_t)) :=
  r ← scan_name_patterns name_patterns name;
  match r with
  | Some result => mret result
  | None =>
      rc ← dc_descriptor_iterator;
      if negb (is_success rc) then mret (rc, None)
      else
        match dc_iterator_find (ble_filter_accepts name)
                (env_catalog env) with
        | Some d =>
            p ← alloc B_descriptor; mret (DC_STATUS_SUCCESS, Some (Ptr p d))
        | None => mret (DC_STATUS_UNSUPPORTED, None)
        end
  end.

Definition get_device_info_from_name (name : string)
    : M (dc_status_t * option (dc_family_t * Z)) :=
  emit (E_enter_get_device_info_from_name name);;
  '(rc, descriptor) ← find_descriptor_by_name name;
  if negb (is_success rc) then mret (rc, None)
  else
    let family :=
      from_option (dc_descriptor_get_type ∘ pointee) DC_FAMILY_NULL
        descriptor in
    let model :=
      from_option (dc_descriptor_get_model ∘ pointee) 0 descriptor in
    dc_descriptor_free descriptor;;
    mret (DC_STATUS_SUCCESS, Some (family, model)).

End ConfigureDC.

Section Session.

Context (env : environment).

(** *** The event callback *)

Definition ble_device_event_cb (device : option loc) (event : dc_event)
    (userdata : option device_data_t) : M (option device_data_t) :=
  match userdata with
  | None => mret None
  | Some devdata =>
      match event with
      | DC_EVENT_DEVINFO devinfo =>
          let devdata := set_devinfo 1 devinfo devdata in
          match dd_lookup_fingerprint devdata, dd_model devdata with
          | Some lookup, Some model =>
              let serial := snprintf_08x 16 (devinfo_serial devinfo) in
              '(fingerprint, fsize) ←
                call_lookup_fingerprint lookup
                  (dd_fingerprint_context devdata) (pointee model) serial;
              match fingerprint with
              | Some fp =>
                  if 0 <? fsize then
                    dc_device_set_fingerprint env device fp fsize;;
                    mret (Some (set_fingerprint (Some fp) (to_uint fsize)
                                  devdata))
                  else mret (Some devdata)
              | None => mret (Some devdata)
              end
          | _, _ => mret (Some devdata)
          end
      | DC_EVENT_PROGRESS progress =>
          mret (Some (set_progress 1 progress devdata))
      | _ => mret (Some devdata)
      end
  end.

(** *** Closing a session *)

Definition close_device_data (data : option device_data_t)
    : M (option device_data_t) :=
  match data with
  | None => mret None
  | Some data =>
      data ← match dd_fingerprint data with
             | Some fp =>
                 free (address fp);;
                 mret (set_fingerprint None 0 data)
             | None => mret data
             end;
      data ← match dd_model data with
             | Some m => free (address m);; mret (set_model None data)
             | None => mret data
             end;
      data ← match dd_device data with
             | Some dev =>
                 dc_device_close env dev;; mret (set_device None data)
             | None => mret data
             end;
      data ← match dd_iostream data with
             | Some s =>
                 dc_iostream_close env s;; mret (set_iostream None data)
             | None => mret data
             end;
      data ← match dd_context data with
             | Some c => dc_context_free c;; mret (set_context None data)
             | None => mret data
             end;
      mret (Some (set_descriptor None data))
  end.

(** *** Opening a session *)

(** Storing through an output parameter that the callee writes only on
    success. *)
Definition written {A} (out : option A) (old : option A) : option A :=
  match out with Some v => Some v | None => old end.

Definition open_ble_device (data : option device_data_t)
    (devaddr : option string) (family : dc_family_t) (model : Z)
    : M (dc_status_t * option device_data_t) :=
  emit (E_enter_open_ble_device devaddr family model);;
  match data, devaddr with
  | Some _, Some devaddr =>
      let data := device_data_zero in
      '(rc, context) ← dc_context_new env;
      let data := set_context (written context (dd_context data)) data in
      if negb (is_success rc) then mret (rc, Some data)
      else
      '(rc, descriptor) ← find_descriptor_by_model env family model;
      if negb (is_success rc) then
        data ← close_device_data (Some data); mret (rc, data)
      else
      '(rc, iostream) ← ble_packet_open env (dd_context data) devaddr;
      let data := set_iostream (written iostream (dd_iostream data)) data in
      if negb (is_success rc) then
        data ← close_device_data (Some data); mret (rc, data)
      else
      '(rc, device) ←
        dc_device_open env (dd_context data) descriptor (dd_iostream data);
      let data := set_device (written device (dd_device data)) data in
      if negb (is_success rc) then
        data ← close_device_data (Some data); mret (rc, data)
      else
      let events :=
        Z.lor (Z.lor DC_EVENT_DEVINFO_bit DC_EVENT_PROGRESS_bit)
          DC_EVENT_CLOCK_bit in
      rc ← dc_device_set_events env (dd_device data) events;
      if negb (is_success rc) then
        data ← close_device_data (Some data); mret (rc, data)
      else
      let data := set_descriptor descriptor data in
      data ←
        match descriptor with
        | Some d =>
            match dc_descriptor_get_vendor (pointee d),
                  dc_descriptor_get_product (pointee d) with
            | Some vendor, Some product =>
                full_name ← malloc env B_bytes;
                match full_name with
                | Some p =>
                    mret (set_model
                            (Some (Ptr p (vendor ++ " " ++ product)%string))
                            data)
                | None => mret data
                end
            | _, _ => mret data
            end
        | None => mret data
        end;
      mret (DC_STATUS_SUCCESS, Some data)
  | _, _ => mret (DC_STATUS_INVALIDARGS, data)
  end.

(** The session is allocated here and [data] is what is stored in it
    ([calloc] zeroes it); on success the caller receives its address and
    contents. *)
Definition open_ble_device_with_identification (name : string)
    (address : option string) (stored_family : dc_family_t)
    (stored_model : Z)
    : M (dc_status_t * option (pointer device_data_t)) :=
  p ← calloc env B_device_data;
  match p with
  | None => mret (DC_STATUS_NOMEMORY, None)
  | Some p =>
      let out_data (data : option device_data_t) :=
        Some (Ptr p (default device_data_zero data)) in
      let identify (data : option device_data_t) :=
        '(rc, info) ← get_device_info_from_name env name;
        if negb (is_success rc) then free p;; mret (rc, None)
        else
          let '(family, model) := default (DC_FAMILY_NULL, 0) info in
          '(rc, data) ← open_ble_device data address family model;
          if negb (is_success rc) then free p;; mret (rc, None)
          else mret (DC_STATUS_SUCCESS, out_data data) in
      let data := Some device_data_zero in
      if negb (stored_family =? DC_FAMILY_NULL) && negb (stored_model =? 0)
      then
        '(rc, data) ←
          open_ble_device data address stored_family stored_model;
        if is_success rc then mret (DC_STATUS_SUCCESS, out_data data)
        else identify data
      else identify data
  end.

End Session.

(** *** Reading from the stream *)

Section StreamRead.

(** The transport's read primitive [ble_read (io, data, size, actual)]
    over some state [W] of the link: the status, the bytes copied to
    [data], the count stored through [actual] and the link afterwards. *)
Context {W : Type}.
Context (ble_read : W -> loc -> Z -> dc_status_t * list Z * Z * W).

Definition packet (data : list Z) (i : nat) : Z := nth i data 0.

(** What the block after the call to [ble_read] computes: the local
    [length], read from [packet[4]] of a response packet. All the
    [printf]s that would show it are commented out. *)
Definition response_length (rc : dc_status_t) (transport : Z)
    (data : list Z) (actual : Z) : option Z :=
  if is_success rc && (0 <? actual) then
    if (transport =? DC_TRANSPORT_BLE) && (2 <=? actual) then
      if 6 <=? actual then
        if (packet data 2 =? 1) && (packet data 3 =? 255) && (7 <=? actual)
        then Some (packet data 4)
        else None
      else None
    else None
  else None.

Definition ble_stream_read (w : W) (iostream : pointer ble_stream_t)
    (size : Z) : dc_status_t * list Z * Z * W :=
  let s := pointee iostream in
  let '(rc, data, actual, w') := ble_read w (ble_object s) size in
  let _length := response_length rc (base_transport s) data actual in
  (rc, data, actual, w').

End StreamRead.

(** Modelled from the spec: the transport read [ble_read] of the BLE
    bridge, which BLEBridge.h declares and whose definition is not among
    the sources. The link holds the bytes that notifications deliver before
    the deadline of the call. A read returns what has arrived, up to the
    requested size, as a success with the count actually copied; when
    nothing arrives before the timeout elapses it signals a timeout, and a
    failed link is a hard I/O failure, distinct from the timeout. *)
Inductive ble_link :=
| Link_up (arriving : list Z)
| Link_failed.

Definition ble_read (link : ble_link) (io : loc) (size : Z)
    : dc_status_t * list Z * Z * ble_link :=
  match link with
  | Link_failed => (DC_STATUS_IO, [], 0, Link_failed)
  | Link_up [] => (DC_STATUS_TIMEOUT, [], 0, Link_up [])
  | Link_up arriving =>
      let n := Z.to_nat size in
      (DC_STATUS_SUCCESS, take n arriving, Z.of_nat (length (take n arriving)),
       Link_up (drop n arriving))
  end.

(** ** Environments to run the unit in *)

(** Everything outside succeeds, all the time. *)
Definition env_success (catalog : list dc_descriptor_t) : environment :=
  Environment catalog
    (fun _ => DC_STATUS_SUCCESS) (fun _ => DC_STATUS_SUCCESS)
    (fun _ => true) (fun _ _ => true) (fun _ => true)
    (fun _ => DC_STATUS_SUCCESS) (fun _ _ => DC_STATUS_SUCCESS)
    (fun _ => DC_STATUS_SUCCESS) (fun _ => DC_STATUS_SUCCESS)
    (fun _ => DC_STATUS_SUCCESS).

(** As [env_success], with a peripheral that cannot be reached. *)
Definition env_unreachable (catalog : list dc_descriptor_t) : environment :=
  Environment catalog
    (fun _ => DC_STATUS_SUCCESS) (fun _ => DC_STATUS_SUCCESS)
    (fun _ => true) (fun _ _ => false) (fun _ => true)
    (fun _ => DC_STATUS_SUCCESS) (fun _ _ => DC_STATUS_SUCCESS)
    (fun _ => DC_STATUS_SUCCESS) (fun _ => DC_STATUS_SUCCESS)
    (fun _ => DC_STATUS_SUCCESS).

(** As [env_success], with no memory left for a context. *)
Definition env_no_context (catalog : list dc_descriptor_t) : environment :=
  Environment catalog
    (fun _ => DC_STATUS_NOMEMORY) (fun _ => DC_STATUS_SUCCESS)
    (fun _ => true) (fun _ _ => true) (fun _ => true)
    (fun _ => DC_STATUS_SUCCESS) (fun _ _ => DC_STATUS_SUCCESS)
    (fun _ => DC_STATUS_SUCCESS) (fun _ => DC_STATUS_SUCCESS)
    (fun _ => DC_STATUS_SUCCESS).

(** Descriptors of the catalog used in the examples; the family and model
    numbers are libdivecomputer's. *)
Definition DC_FAMILY_SUUNTO_EONSTEEL : dc_family_t := Z.shiftl 1 16 + 5.
Definition DC_FAMILY_SHEARWATER_PETREL : dc_family_t := Z.shiftl 9 16 + 1.

Definition ble_descriptor (vendor product : string) (family : dc_family_t)
    (model : Z) : dc_descriptor_t :=
  Descriptor (Some vendor) (Some product) family model DC_TRANSPORT_BLE
    (fun _ name => not_null (strstr name product)).

Definition shearwater_perdix : dc_descriptor_t :=
  ble_descriptor "Shearwater" "Perdix" DC_FAMILY_SHEARWATER_PETREL 5.
Definition shearwater_perdix_2 : dc_descriptor_t :=
  ble_descriptor "Shearwater" "Perdix 2" DC_FAMILY_SHEARWATER_PETREL 11.
Definition shearwater_peregrine : dc_descriptor_t :=
  ble_descriptor "Shearwater" "Peregrine" DC_FAMILY_SHEARWATER_PETREL 9.
Definition shearwater_peregrine_tx : dc_descriptor_t :=
  ble_descriptor "Shearwater" "Peregrine TX" DC_FAMILY_SHEARWATER_PETREL 13.
Definition shearwater_predator : dc_descriptor_t :=
  ble_descriptor "Shearwater" "Predator" DC_FAMILY_SHEARWATER_PETREL 2.
Definition suunto_eon_steel : dc_descriptor_t :=
  ble_descriptor "Suunto" "EON Steel" DC_FAMILY_SUUNTO_EONSTEEL 0.

Definition catalog_full : list dc_descriptor_t :=
  [ suunto_eon_steel; shearwater_perdix; shearwater_peregrine;
    shearwater_perdix_2; shearwater_peregrine_tx; shearwater_predator ].

(** A session left over from an earlier connection, and a heap in which
    everything it points to is live. *)
Definition stale_session : device_data_t :=
  DeviceData (Some 4%nat) (Some 0%nat)
    (Some (Ptr 3%nat (BleStream (Some 0%nat) DC_TRANSPORT_BLE 2%nat)))
    (Some (Ptr 1%nat suunto_eon_steel)) 1 (DevInfo 0 0 0xDEADBEEF) 0
    (Progress 0 0) 0 (Clock 0 0) (Some (Ptr 6%nat [0xAA; 0xBB])) 2 None
    None (Some (Ptr 5%nat "Suunto EON Steel")) 0 0.

Definition stale_state : state :=
  State (list_to_map
           [(0%nat, B_context); (1%nat, B_descriptor); (2%nat, B_ble_object);
            (3%nat, B_ble_stream); (4%nat, B_device); (5%nat, B_bytes);
            (6%nat, B_bytes)]) [].

(** A catalog from before the Perdix 2 was added to it. *)
Definition catalog_without_perdix_2 : list dc_descriptor_t :=
  [ suunto_eon_steel; shearwater_perdix; shearwater_peregrine ].

(** ** Resolution by name, as a function of the catalog *)

(** What a result of the two lookups says about the catalog: the status and
    the descriptor, whatever block holds its copy. *)
Definition descriptor_of (r : dc_status_t * option (pointer dc_descriptor_t))
    : dc_status_t * option dc_descriptor_t :=
  (fst r, pointee <$> snd r).

Definition in_catalog (catalog : list dc_descriptor_t) (p : name_pattern)
    : bool :=
  not_null (dc_iterator_find (vendor_product_is (np_vendor p) (np_product p))
              catalog).

(** The first entry of the table that accepts the name. *)
Definition first_accepting (name : string) : option name_pattern :=
  List.find (fun p => pattern_matches p name) name_patterns.

(** The first entry of the table that accepts the name and whose vendor and
    product have a descriptor in the catalog. *)
Definition selected_pattern (catalog : list dc_descriptor_t) (name : string)
    : option name_pattern :=
  List.find (fun p => pattern_matches p name && in_catalog catalog p)
    name_patterns.

Definition resolve_by_name (catalog : list dc_descriptor_t) (name : string)
    : dc_status_t * option dc_descriptor_t :=
  match selected_pattern catalog name with
  | Some p =>
      (DC_STATUS_SUCCESS,
       dc_iterator_find (vendor_product_is (np_vendor p) (np_product p))
         catalog)
  | None =>
      match dc_iterator_find (ble_filter_accepts name) catalog with
      | Some d => (DC_STATUS_SUCCESS, Some d)
      | None => (DC_STATUS_UNSUPPORTED, None)
      end
  end.

(** ** Reading the formatted serial back *)

Definition is_lower_hex (c : ascii) : bool :=
  existsb (Ascii.eqb c)
    ["0"; "1"; "2"; "3"; "4"; "5"; "6"; "7";
     "8"; "9"; "a"; "b"; "c"; "d"; "e"; "f"]%char.

Fixpoint all_chars (f : ascii -> bool) (s : string) : bool :=
  match s with
  | EmptyString => true
  | String c r => f c && all_chars f r
  end.

Definition hex_digit_value (c : ascii) : Z :=
  let n := Z.of_nat (nat_of_ascii c) in
  if n <? 58 then n - 48 else n - 87.

(** The number a string of hexadecimal digits denotes, on top of [acc]. *)
Fixpoint hex_value (acc : Z) (s : string) : Z :=
  match s with
  | EmptyString => acc
  | String c r => hex_value (16 * acc + hex_digit_value c) r
  end.

(** ** What closing a session does, as a function of the session *)

(** The calls [close_device_data] makes for a session, in order. *)
Definition release_trace (data : device_data_t) : list event :=
  from_option (fun fp => [E_free (address fp)]) [] (dd_fingerprint data)
  ++ from_option (fun m => [E_free (address m)]) [] (dd_model data)
  ++ from_option (fun dev => [E_dc_device_close dev]) [] (dd_device data)
  ++ from_option
       (fun s => [E_dc_iostream_close (address s);
                  E_ble_close (ble_object (pointee s));
                  E_freeBLEObject (ble_object (pointee s));
                  E_free (address s)]) [] (dd_iostream data)
  ++ from_option (fun c => [E_dc_context_free c]) [] (dd_context data).

(** The blocks these calls release, in the same order. *)
Definition released_blocks (data : device_data_t) : list loc :=
  from_option (fun fp => [address fp]) [] (dd_fingerprint data)
  ++ from_option (fun m => [address m]) [] (dd_model data)
  ++ from_option (fun dev => [dev]) [] (dd_device data)
  ++ from_option (fun s => [ble_object (pointee s); address s]) []
       (dd_iostream data)
  ++ from_option (fun c => [c]) [] (dd_context data).

Definition delete_all (ls : list loc) (h : gmap loc block) : gmap loc block :=
  foldl (fun h l => delete l h) h ls.

(** The session after [close_device_data]: no pointer to anything that was
    owned is left in it; the fingerprint size is reset together with the
    fingerprint. *)
Definition closed (data : device_data_t) : device_data_t :=
  let fsize :=
    match dd_fingerprint data with Some _ => 0 | None => dd_fsize data end in
  set_descriptor None
    (set_context None
       (set_iostream None
          (set_device None
             (set_model None (set_fingerprint None fsize data))))).

(** ** Reading a trace *)

(** The block a call releases. *)
Definition released_by (e : event) : option loc :=
  match e with
  | E_dc_context_free l | E_dc_descriptor_free l | E_freeBLEObject l
  | E_free l | E_dc_device_close l => Some l
  | _ => None
  end.

(** The entries into the two session-level operations that
    [open_ble_device_with_identification] chooses between. *)
Definition is_entry (e : event) : bool :=
  match e with
  | E_enter_open_ble_device _ _ _ | E_enter_get_device_info_from_name _ =>
      true
  | _ => false
  end.

Definition entries (t : list event) : list event := List.filter is_entry t.

(** Every catalog iterator the unit asks for is created. *)
Definition iterators_succeed (env : environment) : Prop :=
  forall h, env_dc_descriptor_iterator env h = DC_STATUS_SUCCESS.

(** ** The rest of the unit: the display name and the parser *)

Section DisplayNameAndParser.

Context (env : environment).

(** The display name of a device: "Vendor Product" in a buffer of its
    own, or the null pointer. *)
Definition get_formatted_device_name (name : string)
    : M (option (pointer string)) :=
  '(rc, descriptor) ← find_descriptor_by_name env name;
  if negb (is_success rc) then mret None
  else
    let vendor := descriptor ≫= (dc_descriptor_get_vendor ∘ pointee) in
    let product := descriptor ≫= (dc_descriptor_get_product ∘ pointee) in
    result ←
      match vendor, product with
      | Some vendor, Some product =>
          p ← malloc env B_bytes;
          mret (match p with
                | Some p => Some (Ptr p (vendor ++ " " ++ product)%string)
                | None => None
                end)
      | _, _ => mret None
      end;
    dc_descriptor_free descriptor;;
    mret result.

(** [dc_parser_new2 (parser, context, descriptor, data, size)] of
    libdivecomputer: the status and the parser it stores through [parser]. *)
Context (dc_parser_new2 :
           option loc -> option (pointer dc_descriptor_t) -> list Z -> Z ->
           M (dc_status_t * option loc)).

Definition create_parser_for_device (context : option loc)
    (family : dc_family_t) (model : Z) (data : list Z) (size : Z)
    : M (dc_status_t * option loc) :=
  '(rc, descriptor) ← find_descriptor_by_model env family model;
  if negb (is_success rc) then mret (rc, None)
  else
    '(rc, parser) ← dc_parser_new2 context descriptor data size;
    dc_descriptor_free descriptor;;
    mret (rc, parser).

End DisplayNameAndParser.

(** ** The array helpers of BLEBridge.h *)

(** The operands of [<<] and [|] are promoted to [int]; a shift that
    reaches the sign bit wraps around, as the compilers of the package's
    targets evaluate it. *)
Definition to_int (z : Z) : Z := (z + 2 ^ 31) mod 2 ^ 32 - 2 ^ 31.
Definition to_uint16 (z : Z) : Z := z mod 2 ^ 16.

(** [array[i]], an [unsigned char]. *)
Definition at_index (array : list Z) (i : nat) : Z := nth i array 0.

Definition array_uint16_le (array : list Z) : Z :=
  to_uint16
    (Z.lor (at_index array 0) (to_int (Z.shiftl (at_index array 1) 8))).

Definition array_uint32_le (array : list Z) : Z :=
  to_uint
    (Z.lor
       (Z.lor
          (Z.lor (at_index array 0) (to_int (Z.shiftl (at_index array 1) 8)))
          (to_int (Z.shiftl (at_index array 2) 16)))
       (to_int (Z.shiftl (at_index array 3) 24))).

Definition array_uint16_be (array : list Z) : Z :=
  to_uint16
    (Z.lor (to_int (Z.shiftl (at_index array 0) 8)) (at_index array 1)).

Definition array_uint32_be (array : list Z) : Z :=
  to_uint
    (Z.lor
       (Z.lor
          (Z.lor (to_int (Z.shiftl (at_index array 0) 24))
             (to_int (Z.shiftl (at_index array 1) 16)))
          (to_int (Z.shiftl (at_index array 2) 8)))
       (at_index array 3)).

Definition is_byte (b : Z) : Prop := 0 <= b < 256.

(** ** Facts about the table and the catalog, as computations *)

(** The entry is the first one to accept its own key. *)
Definition reaches_itself (p : name_pattern) : bool :=
  match first_accepting (np_prefix p) with
  | Some q => bool_decide (q = p)
  | None => false
  end.

(** A descriptor of the family and model asked for. *)
Definition model_is (family : dc_family_t) (model : Z) (d : dc_descriptor_t)
    : bool :=
  (dc_descriptor_get_type d =? family) && (dc_descriptor_get_model d =? model).

(** What [get_device_info_from_name] makes of the result of
    [find_descriptor_by_name]. *)
Definition info_of (r : dc_status_t * option dc_descriptor_t)
    : dc_status_t * option (dc_family_t * Z) :=
  if negb (is_success (fst r)) then (fst r, None)
  else (DC_STATUS_SUCCESS,
        Some (from_option dc_descriptor_get_type DC_FAMILY_NULL (snd r),
              from_option dc_descriptor_get_model 0 (snd r))).

(** The state in which [get_device_info_from_name] starts its lookup. *)
Definition entered_get_device_info (name : string) (st : state) : state :=
  State (heap st) (trace st ++ [E_enter_get_device_info_from_name name]).


(** ** The session of a successful open *)

(** The session [open_ble_device] hands back when it succeeds: the
    zeroed session with its five handles and, when it was made, the model
    label. *)
Definition opened_session (context : loc)
    (descriptor : pointer dc_descriptor_t) (io stream device : loc)
    (label : option (pointer string)) : device_data_t :=
  let data := set_context (Some context) device_data_zero in
  let data :=
    set_iostream
      (Some (Ptr stream (BleStream (Some context) DC_TRANSPORT_BLE io)))
      data in
  let data := set_device (Some device) data in
  let data := set_descriptor (Some descriptor) data in
  set_model label data.

(** The heap with the blocks of these handles. *)
Definition heap_of_session (context : loc)
    (descriptor : pointer dc_descriptor_t) (io stream device : loc)
    (h : gmap loc block) : gmap loc block :=
  <[device := B_device]>
    (<[stream := B_ble_stream]>
       (<[io := B_ble_object]>
          (<[address descriptor := B_descriptor]>
             (<[context := B_context]> h)))).

Definition with_label (label : option (pointer string))
    (h : gmap loc block) : gmap loc block :=
  match label with
  | Some m => <[address m := B_bytes]> h
  | None => h
  end.

(** The label is a new block that holds the vendor, a space and the
    product of the descriptor. *)
Definition label_of (d : dc_descriptor_t) (h : gmap loc block)
    (label : option (pointer string)) : Prop :=
  match label with
  | Some m =>
      h !! address m = None
      /\ exists vendor product,
          dc_descriptor_get_vendor d = Some vendor
          /\ dc_descriptor_get_product d = Some product
          /\ pointee m = (vendor ++ " " ++ product)%string
  | None => True
  end.

(** The calls that reach the BLE transport (the bridge functions and the
    stream that wraps them) or a device of libdivecomputer. The other calls
    are those of the context, the catalog, the allocator and the
    application's lookup function. *)
Definition is_transport_call (e : event) : bool :=
  match e with
  | E_initializeBLEManager | E_createBLEObject | E_connectToBLEDevice _ _
  | E_freeBLEObject _ | E_ble_close _ | E_dc_iostream_close _
  | E_dc_device_open _ _ _ | E_dc_device_set_events _ _
  | E_dc_device_close _ | E_dc_device_set_fingerprint _ _ _ => true
  | E_dc_context_new | E_dc_context_free _ | E_dc_descriptor_iterator
  | E_dc_descriptor_free _ | E_malloc | E_calloc | E_free _
  | E_lookup_fingerprint _ _ _ | E_enter_open_ble_device _ _ _
  | E_enter_get_device_info_from_name _ => false
  end.

(** * Properties *)

Local Open Scope list_scope.

(** ** Properties of the string functions *)

Section CStringFacts.

Lemma char_cmp_nonzero a b : char_cmp a b <> 0.
Proof. unfold char_cmp. destruct (_ <? _)%nat; discriminate. Qed.

Lemma strcmp_eq s1 : forall s2, strcmp s1 s2 = 0 <-> s1 = s2.
Proof.
  induction s1 as [|a r1 IH]; intros [|b r2]; simpl;
    try (split; [discriminate | congruence || discriminate]); try tauto.
  destruct (Ascii.eqb a b) eqn:E.
  - apply Ascii.eqb_eq in E. subst b. rewrite IH. split; congruence.
  - apply Ascii.eqb_neq in E. split.
    + intros H. now apply char_cmp_nonzero in H.
    + congruence.
Qed.

Lemma strncmp_starts_with key :
  forall name, strncmp name key (strlen key) = 0 <-> starts_with key name.
Proof.
  unfold starts_with, strlen.
  induction key as [|k key IH]; intros name; simpl.
  - split; [intros _; now exists name | reflexivity].
  - destruct name as [|c name]; simpl.
    + split; [discriminate | intros [post H]; discriminate].
    + destruct (Ascii.eqb c k) eqn:E.
      * apply Ascii.eqb_eq in E. subst c. rewrite IH.
        split; intros [post H]; exists post.
        -- now rewrite H.
        -- now injection H.
      * apply Ascii.eqb_neq in E. split.
        -- intros H. now apply char_cmp_nonzero in H.
        -- intros [post H]. injection H as H _. contradiction.
Qed.

Lemma strstr_contains name :
  forall key, strstr name key <> None <-> contains key name.
Proof.
  unfold contains.
  induction name as [|c name IH]; intros key; simpl.
  - destruct (Z.eqb_spec (strncmp "" key (strlen key)) 0) as [E|E].
    + apply strncmp_starts_with in E. destruct E as [post E].
      split; [intros _; exists "", post; exact E | discriminate].
    + split; [congruence |].
      intros (pre & post & H). exfalso. apply E.
      apply strncmp_starts_with.
      destruct pre; [|discriminate]. now exists post.
  - destruct (Z.eqb_spec (strncmp (String c name) key (strlen key)) 0)
      as [E|E].
    + apply strncmp_starts_with in E. destruct E as [post E].
      split; [intros _; exists "", post; exact E | discriminate].
    + destruct (strstr name key) eqn:R; simpl.
      * split; [intros _ | discriminate].
        destruct (proj1 (IH key)) as (pre & post & H);
          [rewrite R; discriminate |].
        exists (String c pre), post. simpl. now rewrite H.
      * split; [congruence |].
        intros (pre & post & H). destruct pre as [|c' pre].
        -- exfalso. apply E. apply strncmp_starts_with. now exists post.
        -- simpl in H. injection H as -> H.
           exfalso. revert R. apply (proj2 (IH key)). now exists pre, post.
Qed.

End CStringFacts.

(** ** Running the monad *)

Lemma run_bind {A B} (m : M A) (f : A -> M B) st :
  (m ≫= f) st = let (a, st') := m st in f a st'.
Proof. reflexivity. Qed.

Lemma run_ret {A} (a : A) st : (mret a : M A) st = (a, st).
Proof. reflexivity. Qed.

(** Unfolds the monad and the primitives of the state, leaving the answers
    of the environment to case on. *)
Ltac run_monad :=
  repeat (unfold mbind, M_bind, mret, M_ret, history, emit, alloc, dealloc
          in *; cbn beta iota zeta delta [fst snd heap trace] in * ).

(** ** The pattern table *)

Lemma not_null_true {A} (o : option A) : not_null o = true <-> o <> None.
Proof. destruct o; simpl; split; congruence. Qed.

(** C4: for every name and every key, an entry in Exact mode accepts the
    name exactly when the same entry in Contains mode does: the two modes
    compute the same function, and each accepts exactly the names in which
    the key occurs as a substring. *)
Theorem exact_mode_is_contains_mode (key vendor product name : string) :
  pattern_matches (NamePattern key vendor product MATCH_EXACT) name
  = pattern_matches (NamePattern key vendor product MATCH_CONTAINS) name
  /\ (pattern_matches (NamePattern key vendor product MATCH_EXACT) name = true
      <-> contains key name)
  /\ (pattern_matches (NamePattern key vendor product MATCH_CONTAINS) name
      = true <-> contains key name).
Proof.
  unfold pattern_matches; simpl.
  repeat split; try (intros H; apply strstr_contains, not_null_true, H);
    intros H; apply not_null_true, strstr_contains, H.
Qed.

(** The Prefix mode, for comparison: it accepts the names that start with
    the key. *)
Lemma prefix_mode_is_starts_with (key vendor product name : string) :
  pattern_matches (NamePattern key vendor product MATCH_PREFIX) name = true
  <-> starts_with key name.
Proof.
  unfold pattern_matches; simpl. rewrite Z.eqb_eq.
  apply strncmp_starts_with.
Qed.

Lemma vendor_product_is_spec vendor product d :
  vendor_product_is vendor product d = true
  <-> dc_descriptor_get_vendor d = Some vendor
      /\ dc_descriptor_get_product d = Some product.
Proof.
  unfold vendor_product_is.
  destruct (dc_descriptor_get_vendor d) as [v|],
           (dc_descriptor_get_product d) as [p|];
    try (split; [discriminate | intros [? ?]; discriminate]).
  rewrite andb_true_iff, !Z.eqb_eq, !strcmp_eq.
  split; intros [? ?]; split; congruence.
Qed.

Lemma dc_iterator_find_Some test catalog d :
  dc_iterator_find test catalog = Some d -> In d catalog /\ test d = true.
Proof.
  induction catalog as [|x rest IH]; simpl; [discriminate|].
  destruct (test x) eqn:E.
  - intros [= ->]. auto.
  - intros H. destruct (IH H). auto.
Qed.

Section NameResolution.

Context (env : environment).

Lemma scan_name_patterns_spec (Hit : iterators_succeed env) name :
  forall patterns st,
    match List.find
            (fun p => pattern_matches p name && in_catalog (env_catalog env) p)
            patterns with
    | Some p =>
        exists d st',
          dc_iterator_find (vendor_product_is (np_vendor p) (np_product p))
            (env_catalog env) = Some d
          /\ scan_name_patterns env patterns name st
             = (Some (DC_STATUS_SUCCESS,
                      Some (Ptr (fresh (dom (heap st))) d)), st')
          /\ heap st' = <[fresh (dom (heap st)) := B_descriptor]> (heap st)
    | None =>
        exists st',
          scan_name_patterns env patterns name st = (None, st')
          /\ heap st' = heap st
    end.
Proof.
  induction patterns as [|p rest IH]; intros st; simpl.
  - now exists st.
  - destruct (pattern_matches p name) eqn:Hm; simpl.
    + unfold in_catalog.
      unfold dc_descriptor_iterator. run_monad. rewrite Hit. simpl.
      destruct (dc_iterator_find _ (env_catalog env)) as [d|] eqn:Hf; simpl.
      * eexists d, _. split; [exact Hf | split; reflexivity].
      * apply (IH (State (heap st) (trace st ++ [E_dc_descriptor_iterator]))).
    + apply IH.
Qed.

Lemma find_descriptor_by_name_spec (Hit : iterators_succeed env) name st :
  descriptor_of (fst (find_descriptor_by_name env name st))
  = resolve_by_name (env_catalog env) name.
Proof.
  unfold find_descriptor_by_name, resolve_by_name, selected_pattern.
  rewrite run_bind.
  pose proof (scan_name_patterns_spec Hit name name_patterns st) as H.
  destruct (List.find _ name_patterns) as [p|].
  - destruct H as (d & st' & Hd & -> & _). rewrite Hd. reflexivity.
  - destruct H as (st' & -> & _).
    unfold dc_descriptor_iterator. run_monad. rewrite Hit. simpl.
    destruct (dc_iterator_find _ (env_catalog env)); reflexivity.
Qed.

End NameResolution.

Lemma name_patterns_NoDup : NoDup name_patterns.
Proof. apply (bool_decide_unpack _). vm_compute. exact I. Qed.

(** [List.find] returns the first element that passes the test. *)
Lemma find_first {A} (f : A -> bool) (l : list A) (x : A) :
  List.find f l = Some x ->
  exists k, l !! k = Some x /\ f x = true
            /\ forall k' y, (k' < k)%nat -> l !! k' = Some y -> f y = false.
Proof.
  induction l as [|a l IH]; simpl; [discriminate|].
  destruct (f a) eqn:E.
  - intros [= ->]. exists O. repeat split; auto. intros k' y Hk. lia.
  - intros H. destruct (IH H) as (k & Hk & Hx & Hbefore).
    exists (S k). repeat split; auto.
    intros [|k'] y Hlt; simpl.
    + intros [= <-]. exact E.
    + apply Hbefore. lia.
Qed.

Lemma find_exists {A} (f : A -> bool) (l : list A) (i : nat) (x : A) :
  l !! i = Some x -> f x = true -> exists y, List.find f l = Some y.
Proof.
  revert i. induction l as [|a l IH]; intros [|i]; simpl; try discriminate.
  - intros [= ->] ->. eauto.
  - intros Hi Hx. destruct (f a); eauto.
Qed.

(** C1, as the code has it: the entries are tried in the order of the
    table, an entry that accepts the name but whose vendor and product have
    no descriptor in the catalog is passed over, and the first accepting
    entry that has one determines the descriptor returned; so a name
    accepted by an entry that the catalog knows never resolves to an entry
    listed after it. When no entry is selected the BLE filters decide. *)
Theorem find_descriptor_by_name_first_known_match env name st :
  iterators_succeed env ->
  descriptor_of (fst (find_descriptor_by_name env name st))
  = resolve_by_name (env_catalog env) name
  /\ (forall p, selected_pattern (env_catalog env) name = Some p ->
      pattern_matches p name = true
      /\ exists d,
          descriptor_of (fst (find_descriptor_by_name env name st))
          = (DC_STATUS_SUCCESS, Some d)
          /\ dc_descriptor_get_vendor d = Some (np_vendor p)
          /\ dc_descriptor_get_product d = Some (np_product p))
  /\ (forall i j pi pj,
      (i < j)%nat ->
      name_patterns !! i = Some pi -> name_patterns !! j = Some pj ->
      pattern_matches pi name = true ->
      in_catalog (env_catalog env) pi = true ->
      exists k p,
        (k <= i)%nat /\ name_patterns !! k = Some p /\ p <> pj
        /\ selected_pattern (env_catalog env) name = Some p).
Proof.
  intros Hit. split; [now apply find_descriptor_by_name_spec|]. split.
  - intros p Hp. rewrite find_descriptor_by_name_spec by assumption.
    unfold resolve_by_name. rewrite Hp.
    apply find_first in Hp as (k & _ & Hp & _).
    apply andb_true_iff in Hp as [Hm Hc]. split; [exact Hm|].
    unfold in_catalog in Hc.
    destruct (dc_iterator_find _ (env_catalog env)) as [d|] eqn:Hd;
      [|discriminate].
    exists d. split; [reflexivity|].
    apply dc_iterator_find_Some in Hd as [_ Hd].
    now apply vendor_product_is_spec.
  - intros i j pi pj Hij Hi Hj Hm Hc.
    destruct (find_exists
                (fun p => pattern_matches p name
                          && in_catalog (env_catalog env) p)
                name_patterns i pi Hi) as [p Hp].
    { now rewrite Hm, Hc. }
    pose proof Hp as Hsel.
    apply find_first in Hp as (k & Hk & _ & Hbefore).
    assert (k <= i)%nat as Hki.
    { destruct (Nat.le_gt_cases k i) as [?|Hlt]; [assumption|].
      specialize (Hbefore i pi Hlt Hi). simpl in Hbefore.
      rewrite Hm, Hc in Hbefore. discriminate. }
    exists k, p. repeat split; try assumption.
    intros ->.
    pose proof (NoDup_lookup _ _ _ _ name_patterns_NoDup Hk Hj). lia.
Qed.

(** C1 at a sample: a catalog that knows every model of the examples, the
    name "Perdix 2". *)
Lemma find_descriptor_by_name_first_known_match_witness :
  iterators_succeed (env_success catalog_full)
  /\ descriptor_of
       (fst (find_descriptor_by_name (env_success catalog_full) "Perdix 2"
               initial_state))
     = resolve_by_name catalog_full "Perdix 2".
Proof.
  split; [intros h; reflexivity|].
  apply (find_descriptor_by_name_first_known_match
           (env_success catalog_full) "Perdix 2" initial_state).
  intros h; reflexivity.
Defined.

(** C1 as it is stated fails when the catalog does not know the first
    accepting entry: "Perdix 2" is first accepted by the entry of the
    Perdix 2, and with a catalog without that model the lookup goes on and
    returns the descriptor of the broader entry "Perdix" listed later. It
    also fails for a name that an entry before the pair accepts: "Predator
    Perdix 2" contains the key "Perdix 2" and resolves to the Predator. *)
Lemma perdix_2_resolves_to_the_later_perdix_entry :
  first_accepting "Perdix 2"
  = Some (NamePattern "Perdix 2" "Shearwater" "Perdix 2" MATCH_EXACT)
  /\ name_patterns !! 4%nat
     = Some (NamePattern "Perdix" "Shearwater" "Perdix" MATCH_EXACT)
  /\ descriptor_of
       (fst (find_descriptor_by_name (env_success catalog_without_perdix_2)
               "Perdix 2" initial_state))
     = (DC_STATUS_SUCCESS, Some shearwater_perdix)
  /\ dc_descriptor_get_product shearwater_perdix = Some "Perdix"
  /\ dc_descriptor_get_product shearwater_perdix <> Some "Perdix 2"
  /\ contains "Perdix 2" "Predator Perdix 2"
  /\ descriptor_of
       (fst (find_descriptor_by_name (env_success catalog_full)
               "Predator Perdix 2" initial_state))
     = (DC_STATUS_SUCCESS, Some shearwater_predator).
Proof.
  repeat split; try discriminate.
  exists "Predator ", "". reflexivity.
Qed.

Lemma scan_name_patterns_cons env p rest name :
  scan_name_patterns env (p :: rest) name
  = if pattern_matches p name then
      rc ← dc_descriptor_iterator env;
      if negb (is_success rc) then mret (Some (rc, None))
      else
        match dc_iterator_find
                (vendor_product_is (np_vendor p) (np_product p))
                (env_catalog env) with
        | Some d =>
            l ← alloc B_descriptor;
            mret (Some (DC_STATUS_SUCCESS, Some (Ptr l d)))
        | None => scan_name_patterns env rest name
        end
    else scan_name_patterns env rest name.
Proof. reflexivity. Qed.

(** Entries that reject the name are passed over. *)
Lemma scan_name_patterns_skip env name (pre rest : list name_pattern) :
  forallb (fun p => negb (pattern_matches p name)) pre = true ->
  scan_name_patterns env (pre ++ rest) name
  = scan_name_patterns env rest name.
Proof.
  induction pre as [|p pre IH]; simpl app; [reflexivity|].
  cbn [forallb]. rewrite andb_true_iff, negb_true_iff. intros [Hp Hpre].
  rewrite scan_name_patterns_cons, Hp. now apply IH.
Qed.

(** C8: the name "Peregrine" resolves to the catalog's descriptor of the
    Shearwater Peregrine TX, not to one whose product is "Peregrine": the
    first entry that accepts the name is the one that maps the key
    "Peregrine" to the product "Peregrine TX". *)
Theorem peregrine_resolves_to_peregrine_tx env st d :
  env_dc_descriptor_iterator env (trace st) = DC_STATUS_SUCCESS ->
  dc_iterator_find (vendor_product_is "Shearwater" "Peregrine TX")
    (env_catalog env) = Some d ->
  first_accepting "Peregrine"
  = Some (NamePattern "Peregrine" "Shearwater" "Peregrine TX" MATCH_EXACT)
  /\ descriptor_of (fst (find_descriptor_by_name env "Peregrine" st))
     = (DC_STATUS_SUCCESS, Some d)
  /\ dc_descriptor_get_vendor d = Some "Shearwater"
  /\ dc_descriptor_get_product d = Some "Peregrine TX"
  /\ dc_descriptor_get_product d <> Some "Peregrine".
Proof.
  intros Hit Hd. split; [vm_compute; reflexivity|].
  pose proof Hd as Hvp.
  apply dc_iterator_find_Some in Hvp as [_ Hvp].
  apply vendor_product_is_spec in Hvp as [Hv Hp].
  repeat split; try assumption.
  - unfold find_descriptor_by_name.
    change name_patterns
      with (firstn 7 name_patterns
            ++ NamePattern "Peregrine" "Shearwater" "Peregrine TX" MATCH_EXACT
               :: skipn 8 name_patterns).
    rewrite scan_name_patterns_skip by (vm_compute; reflexivity).
    rewrite scan_name_patterns_cons.
    replace (pattern_matches
               (NamePattern "Peregrine" "Shearwater" "Peregrine TX"
                  MATCH_EXACT) "Peregrine")
      with true by (vm_compute; reflexivity).
    generalize (skipn 8 name_patterns). intros rest.
    unfold dc_descriptor_iterator. run_monad.
    rewrite Hit. cbn [np_vendor np_product is_success negb].
    rewrite Hd. reflexivity.
  - rewrite Hp. discriminate.
Qed.

Lemma peregrine_resolves_to_peregrine_tx_witness :
  descriptor_of
    (fst (find_descriptor_by_name (env_success catalog_full) "Peregrine"
            initial_state))
  = (DC_STATUS_SUCCESS, Some shearwater_peregrine_tx)
  /\ dc_descriptor_get_product shearwater_peregrine_tx = Some "Peregrine TX".
Proof.
  destruct (peregrine_resolves_to_peregrine_tx (env_success catalog_full)
              initial_state shearwater_peregrine_tx eq_refl eq_refl)
    as (_ & H & _ & Hp & _).
  split; [exact H | exact Hp].
Defined.

(** ** The stream adapter's read *)

Lemma ble_stream_read_passthrough {W}
    (read : W -> loc -> Z -> dc_status_t * list Z * Z * W) w iostream size :
  ble_stream_read read w iostream size
  = read w (ble_object (pointee iostream)) size.
Proof.
  unfold ble_stream_read.
  destruct (read w (ble_object (pointee iostream)) size) as [[[rc data] n] w'].
  reflexivity.
Qed.

(** C7: the adapter's read returns the status, the bytes and the count of
    the transport's read unchanged; so when the transport delivers fewer
    bytes than requested, and at least one, the adapter returns success
    with the count delivered, and when nothing arrives before the timeout
    elapses it returns the timeout status. *)
Theorem ble_stream_read_partial_and_timeout
    (iostream : pointer ble_stream_t) (size : Z) (arriving : list Z) :
  (0 < Z.of_nat (length arriving) < size ->
   ble_stream_read ble_read (Link_up arriving) iostream size
   = (DC_STATUS_SUCCESS, arriving, Z.of_nat (length arriving), Link_up []))
  /\ ble_stream_read ble_read (Link_up []) iostream size
     = (DC_STATUS_TIMEOUT, [], 0, Link_up [])
  /\ (forall (W : Type) (read : W -> loc -> Z -> dc_status_t * list Z * Z * W)
        (w : W),
      ble_stream_read read w iostream size
      = read w (ble_object (pointee iostream)) size).
Proof.
  split; [|split].
  - intros H. rewrite ble_stream_read_passthrough.
    destruct arriving as [|b rest]; [simpl in H; lia|].
    unfold ble_read.
    assert (length (b :: rest) <= Z.to_nat size)%nat as Hn by lia.
    rewrite take_ge, drop_ge by exact Hn. reflexivity.
  - now rewrite ble_stream_read_passthrough.
  - intros W read w. apply ble_stream_read_passthrough.
Qed.

Lemma ble_stream_read_partial_and_timeout_witness :
  ble_stream_read ble_read (Link_up [1; 255; 3])
    (Ptr 7%nat (BleStream None DC_TRANSPORT_BLE 6%nat)) 20
  = (DC_STATUS_SUCCESS, [1; 255; 3], 3, Link_up []).
Proof.
  destruct (ble_stream_read_partial_and_timeout
              (Ptr 7%nat (BleStream None DC_TRANSPORT_BLE 6%nat)) 20
              [1; 255; 3]) as [Hpartial _].
  apply Hpartial. simpl. lia.
Defined.

(** ** The formatted serial *)

Lemma string_length_app (s1 s2 : string) :
  String.length (s1 ++ s2)%string
  = (String.length s1 + String.length s2)%nat.
Proof. induction s1 as [|c s1 IH]; simpl; [reflexivity | now rewrite IH]. Qed.

Lemma all_chars_app f (s1 s2 : string) :
  all_chars f (s1 ++ s2)%string = all_chars f s1 && all_chars f s2.
Proof.
  induction s1 as [|c s1 IH]; simpl; [reflexivity|].
  now rewrite IH, andb_assoc.
Qed.

Lemma hex_value_app acc (s1 s2 : string) :
  hex_value acc (s1 ++ s2)%string = hex_value (hex_value acc s1) s2.
Proof. revert acc. induction s1 as [|c s1 IH]; simpl; intros; auto. Qed.

Lemma substring_whole (s : string) (n : nat) :
  (String.length s <= n)%nat -> substring 0 n s = s.
Proof.
  revert n. induction s as [|c s IH]; intros [|n] H; simpl in *;
    try reflexivity; try lia.
  rewrite IH by lia. reflexivity.
Qed.

Lemma hex_digit_spec (d : Z) :
  0 <= d < 16 ->
  is_lower_hex (hex_digit d) = true /\ hex_digit_value (hex_digit d) = d.
Proof.
  intros H. rewrite <- (Z2Nat.id d) by lia.
  assert (Z.to_nat d < 16)%nat as Hn by lia.
  revert Hn. generalize (Z.to_nat d). clear H. intros n Hn.
  do 16 (destruct n as [|n]; [split; reflexivity|]). lia.
Qed.

Lemma hex_digits_spec (n : nat) :
  forall v, 0 <= v < 16 ^ Z.of_nat n -> (1 <= n)%nat ->
    (1 <= String.length (hex_digits n v) <= n)%nat
    /\ all_chars is_lower_hex (hex_digits n v) = true
    /\ hex_value 0 (hex_digits n v) = v.
Proof.
  induction n as [|n IH]; intros v Hv Hn; [lia|].
  simpl hex_digits. destruct (Z.ltb_spec v 16) as [Hlt|Hge].
  - destruct (hex_digit_spec v) as [Hl Hd]; [lia|].
    simpl. rewrite Hl, Hd. repeat split; lia.
  - assert (1 <= n)%nat as Hn'.
    { destruct n; [|lia]. simpl in Hv. lia. }
    assert (0 <= v / 16 < 16 ^ Z.of_nat n) as Hq.
    { rewrite Nat2Z.inj_succ, Z.pow_succ_r in Hv by lia.
      split; [apply Z.div_pos; lia | apply Z.div_lt_upper_bound; lia]. }
    destruct (IH (v / 16) Hq Hn') as (Hlen & Hall & Hval).
    destruct (hex_digit_spec (v mod 16)) as [Hl Hd];
      [apply Z.mod_pos_bound; lia|].
    rewrite string_length_app, all_chars_app, hex_value_app, Hall, Hval.
    simpl. rewrite Hl, Hd. repeat split; try lia.
    rewrite (Z.div_mod v 16) at 3 by lia. lia.
Qed.

Lemma zeros_spec (k : nat) :
  String.length (zeros k) = k
  /\ all_chars is_lower_hex (zeros k) = true
  /\ hex_value 0 (zeros k) = 0.
Proof. induction k as [|k (Hl & Ha & Hv)]; simpl; auto. Qed.

Lemma to_uint_range v : 0 <= to_uint v < 2 ^ 32.
Proof. unfold to_uint. apply Z.mod_pos_bound. lia. Qed.

(** The serial is formatted as 8 lowercase hexadecimal digits that denote
    the ([unsigned int]) serial. *)
Lemma snprintf_08x_spec (v : Z) :
  String.length (snprintf_08x 16 v) = 8%nat
  /\ all_chars is_lower_hex (snprintf_08x 16 v) = true
  /\ hex_value 0 (snprintf_08x 16 v) = to_uint v.
Proof.
  destruct (hex_digits_spec 8 (to_uint v)) as (Hlen & Hall & Hval);
    [apply to_uint_range | lia |].
  destruct (zeros_spec (8 - String.length (hex_digits 8 (to_uint v))))
    as (Hzl & Hza & Hzv).
  assert (String.length (format_08x v) = 8%nat) as H8.
  { unfold format_08x. cbv zeta. rewrite string_length_app, Hzl. lia. }
  unfold snprintf_08x. rewrite substring_whole by (rewrite H8; lia).
  split; [exact H8|]. unfold format_08x. cbv zeta.
  rewrite all_chars_app, hex_value_app, Hza, Hzv, Hall, Hval. auto.
Qed.

Example snprintf_08x_deadbeef : snprintf_08x 16 0xDEADBEEF = "deadbeef".
Proof. reflexivity. Qed.

Example snprintf_08x_small : snprintf_08x 16 0x2A = "0000002a".
Proof. reflexivity. Qed.

(** ** The event callback *)

(** C3: on a device-info event in a session that has a lookup function and
    a model label, the callback formats the serial as 8 lowercase
    hexadecimal digits and calls the lookup once, with the model label and
    that string. When the lookup returns a buffer and a positive size, the
    callback passes that buffer to [dc_device_set_fingerprint] once and
    stores the same buffer, with the same size, in the session; the size is
    the one returned, as an [unsigned int]. When the lookup returns the null
    pointer or the size 0, nothing is passed to the device and the
    fingerprint fields of the session keep their values. *)
Theorem ble_device_event_cb_devinfo_fingerprint
    env device devinfo devdata lookup model st :
  dd_lookup_fingerprint devdata = Some lookup ->
  dd_model devdata = Some model ->
  let serial := snprintf_08x 16 (devinfo_serial devinfo) in
  let call :=
    E_lookup_fingerprint (dd_fingerprint_context devdata) (pointee model)
      serial in
  let answer :=
    lookup (trace st) (dd_fingerprint_context devdata) (pointee model)
      serial in
  let fsize := to_size_t (snd answer) in
  let result :=
    ble_device_event_cb env device (DC_EVENT_DEVINFO devinfo) (Some devdata)
      st in
  (String.length serial = 8%nat
   /\ all_chars is_lower_hex serial = true
   /\ hex_value 0 serial = to_uint (devinfo_serial devinfo))
  /\ exists devdata',
      fst result = Some devdata'
      /\ dd_devinfo devdata' = devinfo /\ dd_have_devinfo devdata' = 1
      /\ match fst answer with
         | Some bytes =>
             if 0 <? fsize then
               let fp := Ptr (fresh (dom (heap st))) bytes in
               trace (snd result)
               = trace st
                 ++ [call;
                     E_dc_device_set_fingerprint device (address fp)
                       (to_uint fsize)]
               /\ heap (snd result) !! address fp = Some B_bytes
               /\ dd_fingerprint devdata' = Some fp
               /\ dd_fsize devdata' = to_uint fsize
               /\ (fsize < 2 ^ 32 -> dd_fsize devdata' = fsize)
             else
               trace (snd result) = trace st ++ [call]
               /\ dd_fingerprint devdata' = dd_fingerprint devdata
               /\ dd_fsize devdata' = dd_fsize devdata
         | None =>
             trace (snd result) = trace st ++ [call]
             /\ dd_fingerprint devdata' = dd_fingerprint devdata
             /\ dd_fsize devdata' = dd_fsize devdata
         end.
Proof.
  intros Hlookup Hmodel serial call answer fsize result.
  split; [apply snprintf_08x_spec|].
  subst result. unfold ble_device_event_cb.
  cbn [dd_lookup_fingerprint dd_model dd_fingerprint_context set_devinfo].
  rewrite Hlookup, Hmodel.
  unfold call_lookup_fingerprint, dc_device_set_fingerprint. run_monad.
  fold serial. fold answer.
  destruct answer as [bytes size] eqn:Hanswer. subst fsize.
  cbn [fst snd]. destruct bytes as [bytes|].
  - run_monad. destruct (0 <? to_size_t size) eqn:Hpos.
    + run_monad. eexists. split; [reflexivity|].
      cbn. rewrite <- app_assoc. repeat split.
      * apply lookup_insert_eq.
      * intros Hlt. unfold to_uint. apply Z.mod_small.
        apply Z.ltb_lt in Hpos. lia.
    + run_monad. eexists. split; [reflexivity|]. cbn. auto.
  - run_monad. eexists. split; [reflexivity|]. cbn. auto.
Qed.

(** Without a lookup function or without a model label the callback only
    records the device information. *)
Lemma ble_device_event_cb_devinfo_no_lookup env device devinfo devdata st :
  dd_lookup_fingerprint devdata = None \/ dd_model devdata = None ->
  ble_device_event_cb env device (DC_EVENT_DEVINFO devinfo) (Some devdata) st
  = (Some (set_devinfo 1 devinfo devdata), st).
Proof.
  unfold ble_device_event_cb.
  cbn [dd_lookup_fingerprint dd_model set_devinfo].
  intros [-> | ->]; [|destruct (dd_lookup_fingerprint devdata)]; reflexivity.
Qed.

(** A progress event is recorded, any other event is ignored. *)
Lemma ble_device_event_cb_other env device event devdata st :
  (forall devinfo, event <> DC_EVENT_DEVINFO devinfo) ->
  ble_device_event_cb env device event (Some devdata) st
  = (Some (match event with
           | DC_EVENT_PROGRESS progress => set_progress 1 progress devdata
           | _ => devdata
           end), st).
Proof.
  intros H. destruct event; try reflexivity. now destruct (H devinfo).
Qed.

(** The spec's sample: the serial 0xDEADBEEF, a lookup that answers the
    key ("Suunto EON Steel", "deadbeef") with the bytes AA BB. *)
Lemma ble_device_event_cb_devinfo_fingerprint_witness :
  let lookup : lookup_fingerprint_t :=
    fun _ _ device_type serial =>
      if (String.eqb device_type "Suunto EON Steel"
          && String.eqb serial "deadbeef")%bool
      then (Some [0xAA; 0xBB], 2) else (None, 0) in
  let devdata :=
    DeviceData (Some 3%nat) (Some 0%nat) None None 0 (DevInfo 0 0 0) 0
      (Progress 0 0) 0 (Clock 0 0) None 0 None (Some lookup)
      (Some (Ptr 4%nat "Suunto EON Steel")) 0 0 in
  let result :=
    ble_device_event_cb (env_success catalog_full) (Some 3%nat)
      (DC_EVENT_DEVINFO (DevInfo 0 0 0xDEADBEEF)) (Some devdata)
      initial_state in
  exists devdata',
    fst result = Some devdata'
    /\ trace (snd result)
       = [E_lookup_fingerprint None "Suunto EON Steel" "deadbeef";
          E_dc_device_set_fingerprint (Some 3%nat) 0%nat 2]
    /\ dd_fingerprint devdata' = Some (Ptr 0%nat [0xAA; 0xBB])
    /\ dd_fsize devdata' = 2.
Proof.
  intros lookup devdata result.
  destruct (ble_device_event_cb_devinfo_fingerprint
              (env_success catalog_full) (Some 3%nat)
              (DevInfo 0 0 0xDEADBEEF) devdata lookup
              (Ptr 4%nat "Suunto EON Steel") initial_state
              eq_refl eq_refl)
    as (_ & devdata' & Hres & _ & _ & Htrace & _ & Hfp & Hsize & _).
  exists devdata'. repeat split; assumption.
Defined.

(** ** Closing a session *)

Lemma delete_all_lookup (ls : list loc) :
  forall (h : gmap loc block) l, l ∈ ls -> delete_all ls h !! l = None.
Proof.
  unfold delete_all.
  induction ls as [|a ls IH]; intros h l Hl; [now apply elem_of_nil in Hl|].
  simpl. destruct (decide (l ∈ ls)) as [Hin|Hnotin]; [now apply IH|].
  apply elem_of_cons in Hl as [->|Hl]; [|contradiction].
  clear IH. revert h. induction ls as [|b ls IH]; intros h; simpl.
  - apply lookup_delete_eq.
  - apply not_elem_of_cons in Hnotin as [Hab Hnotin].
    rewrite delete_delete. now apply IH.
Qed.

(** C9: closing a session releases the fingerprint bytes, then the model
    label, then the device handle, then the stream, then the context, each
    one only when its field is not null, and sets each of these fields to
    null (and the size of a fingerprint it released to 0): afterwards none
    of the blocks released is live and no owning field points anywhere. *)
Theorem close_device_data_releases_in_order env data st :
  let result := close_device_data env (Some data) st in
  fst result = Some (closed data)
  /\ trace (snd result) = trace st ++ release_trace data
  /\ heap (snd result) = delete_all (released_blocks data) (heap st)
  /\ (forall l, l ∈ released_blocks data -> heap (snd result) !! l = None)
  /\ dd_fingerprint (closed data) = None
  /\ (dd_fingerprint data <> None -> dd_fsize (closed data) = 0)
  /\ dd_model (closed data) = None /\ dd_device (closed data) = None
  /\ dd_iostream (closed data) = None /\ dd_context (closed data) = None
  /\ dd_descriptor (closed data) = None.
Proof.
  intros result.
  assert (fst result = Some (closed data)
          /\ trace (snd result) = trace st ++ release_trace data
          /\ heap (snd result) = delete_all (released_blocks data) (heap st))
    as (Hres & Htrace & Hheap).
  { subst result. unfold close_device_data, release_trace, released_blocks.
    destruct data as [dev ctx ios desc hd di hp pr hc cl fp fs fc lf mo fd fv].
    unfold dc_iostream_close, ble_stream_close, dc_device_close, ble_close,
      freeBLEObject, dc_context_free, free.
    destruct fp as [fp|], mo as [mo|], dev as [dev|], ios as [ios|],
      ctx as [ctx|]; run_monad; cbn;
      rewrite <- ?app_assoc, ?app_nil_r; repeat split; reflexivity. }
  repeat split; try assumption; try reflexivity.
  - intros l Hl. rewrite Hheap. now apply delete_all_lookup.
  - unfold closed. destruct (dd_fingerprint data); [reflexivity | congruence].
Qed.

(** A session with every field set: the calls of one close, in order. *)
Example close_device_data_full_session :
  trace (snd (close_device_data (env_success catalog_full)
                (Some stale_session) stale_state))
  = [E_free 6%nat; E_free 5%nat; E_dc_device_close 4%nat;
     E_dc_iostream_close 3%nat; E_ble_close 2%nat; E_freeBLEObject 2%nat;
     E_free 3%nat; E_dc_context_free 0%nat].
Proof. reflexivity. Qed.

Lemma close_device_data_releases_in_order_witness :
  let result :=
    close_device_data (env_success catalog_full) (Some stale_session)
      stale_state in
  trace (snd result)
  = [E_free 6%nat; E_free 5%nat; E_dc_device_close 4%nat;
     E_dc_iostream_close 3%nat; E_ble_close 2%nat; E_freeBLEObject 2%nat;
     E_free 3%nat; E_dc_context_free 0%nat]
  /\ heap (snd result) !! 4%nat = None.
Proof.
  intros result.
  destruct (close_device_data_releases_in_order (env_success catalog_full)
              stale_session stale_state) as (_ & Htrace & _ & Hgone & _).
  split; [exact Htrace|]. apply Hgone.
  apply list_elem_of_In. simpl. auto.
Defined.

(** ** Opening a session *)

Lemma is_success_true rc : is_success rc = true <-> rc = DC_STATUS_SUCCESS.
Proof. destruct rc; simpl; split; congruence. Qed.

Lemma is_success_false rc : is_success rc = false <-> rc <> DC_STATUS_SUCCESS.
Proof. destruct rc; simpl; split; congruence. Qed.

Ltac unfold_unit :=
  unfold open_ble_device, close_device_data, dc_context_new,
    find_descriptor_by_model, ble_packet_open, ble_iostream_create,
    dc_device_open, dc_device_set_events, dc_iostream_close,
    ble_stream_close, dc_device_close, ble_close, freeBLEObject,
    dc_context_free, free, malloc, calloc, createBLEObject,
    connectToBLEDevice, initializeBLEManager, dc_descriptor_iterator,
    dc_descriptor_free in *.

Ltac destruct_scrutinee x :=
  lazymatch x with
  | negb ?y => destruct_scrutinee y
  | andb ?y _ => destruct_scrutinee y
  | _ => destruct x eqn:?
  end.

(** Cases on an answer of the environment that the goal branches on. *)
Ltac break_path :=
  match goal with
  | |- context [match ?x with _ => _ end] =>
      match type of x with
      | bool => destruct_scrutinee x
      | option _ => destruct x eqn:?
      end
  end.

Ltac simpl_session :=
  cbn [negb andb is_success written dd_context dd_iostream dd_device dd_model
       dd_fingerprint dd_descriptor set_context set_iostream set_device
       set_descriptor set_model set_fingerprint device_data_zero address
       pointee ble_object dd_fsize fst snd heap trace] in *.

(** Runs [open_ble_device] along each of its paths. *)
Ltac run_paths :=
  unfold_unit; run_monad; simpl_session;
  repeat (break_path; run_monad; simpl_session).

(** Names the addresses the allocator picked, keeping that they were free. *)
Ltac name_fresh :=
  repeat match goal with
  | |- context [fresh (dom ?h)] =>
      let l := fresh "l" in
      let H := fresh "Hl" in
      pose proof (is_fresh (dom h)) as H;
      apply not_elem_of_dom in H;
      set (l := fresh (dom h)) in *; clearbody l
  | H' : context [fresh (dom ?h)] |- _ =>
      let l := fresh "l" in
      let H := fresh "Hl" in
      pose proof (is_fresh (dom h)) as H;
      apply not_elem_of_dom in H;
      set (l := fresh (dom h)) in *; clearbody l
  end;
  repeat match goal with
  | H : <[_ := _]> _ !! _ = None |- _ =>
      apply lookup_insert_None in H as [? ?]
  end.

Ltac heap_included :=
  apply map_subseteq_spec; intros ? ? ?;
  repeat first
    [ rewrite lookup_delete_ne by congruence
    | rewrite lookup_insert_ne by congruence ];
  assumption.

Ltac heap_equal :=
  apply map_eq; intros ?;
  repeat first [ rewrite lookup_delete | rewrite lookup_insert ];
  repeat case_decide; subst; congruence.

(** What was live before a call of [open_ble_device] is live after it. *)
Lemma open_ble_device_keeps_heap env d devaddr family model st :
  heap st
  ⊆ heap (snd (open_ble_device env (Some d) (Some devaddr) family model st)).
Proof. run_paths; name_fresh; heap_included. Qed.

(** The calls of [open_ble_device] release only blocks that were not live
    before. *)
Lemma open_ble_device_releases_own env d devaddr family model st :
  exists new,
    trace (snd (open_ble_device env (Some d) (Some devaddr) family model st))
    = trace st ++ new
    /\ Forall (fun e => forall l, released_by e = Some l ->
                                  heap st !! l = None) new.
Proof.
  run_paths; name_fresh; rewrite <- ?app_assoc;
    (eexists; split; [reflexivity|]); cbn [app];
    repeat constructor; cbn [released_by]; intros ? [= <-]; assumption.
Qed.

(** A failed [open_ble_device] leaves the heap as it found it, but for the
    descriptor when one had been found. *)
Lemma open_ble_device_failure_heap env d devaddr family model st :
  let result := open_ble_device env (Some d) (Some devaddr) family model st in
  fst (fst result) <> DC_STATUS_SUCCESS ->
  heap (snd result) = heap st
  \/ exists l, heap st !! l = None
               /\ heap (snd result) = <[l := B_descriptor]> (heap st).
Proof.
  cbv zeta. run_paths; intros Hrc; try congruence; name_fresh;
    first [ left; heap_equal | right; eexists; split; [eassumption|heap_equal] ].
Qed.

Lemma entries_app (t1 t2 : list event) :
  entries (t1 ++ t2) = entries t1 ++ entries t2.
Proof. apply List.filter_app. Qed.

(** Once the descriptor is found, every failure leaves it allocated. *)
Lemma open_ble_device_failure_after_descriptor
    env d devaddr family model st descriptor :
  let entered :=
    trace st ++ [E_enter_open_ble_device (Some devaddr) family model] in
  let result := open_ble_device env (Some d) (Some devaddr) family model st in
  is_success (env_dc_context_new env entered) = true ->
  is_success (env_dc_descriptor_iterator env (entered ++ [E_dc_context_new]))
  = true ->
  dc_iterator_find
    (fun d => (dc_descriptor_get_type d =? family)
              && (dc_descriptor_get_model d =? model))
    (env_catalog env) = Some descriptor ->
  fst (fst result) <> DC_STATUS_SUCCESS ->
  exists l, heap st !! l = None
            /\ heap (snd result) = <[l := B_descriptor]> (heap st).
Proof.
  cbv zeta. intros Hctx Hit Hfind.
  run_paths; intros Hrc; try congruence; name_fresh;
    eexists; (split; [eassumption|heap_equal]).
Qed.

(** [open_ble_device] enters no other session-level operation. *)
Lemma open_ble_device_entries env data devaddr family model st :
  entries (trace (snd (open_ble_device env data devaddr family model st)))
  = entries (trace st) ++ [E_enter_open_ble_device devaddr family model].
Proof.
  destruct data as [d|], devaddr as [devaddr|];
    run_paths; rewrite ?entries_app; cbn [entries List.filter is_entry];
    rewrite ?app_nil_r; reflexivity.
Qed.

Lemma NoDup_five (a b c d e : loc) :
  NoDup [a; b; c; d; e] ->
  a <> b /\ a <> c /\ a <> d /\ a <> e /\ b <> c /\ b <> d /\ b <> e
  /\ c <> d /\ c <> e /\ d <> e.
Proof.
  intros H. repeat rewrite NoDup_cons in H.
  repeat rewrite not_elem_of_cons in H. tauto.
Qed.

(** The session [open_ble_device] builds on success, and the heap it
    leaves. *)
Lemma open_ble_device_success_cases env d devaddr family model st :
  let result := open_ble_device env (Some d) (Some devaddr) family model st in
  fst (fst result) = DC_STATUS_SUCCESS ->
  exists context descriptor io stream device label,
    snd (fst result)
    = Some (opened_session context descriptor io stream device label)
    /\ In (pointee descriptor) (env_catalog env)
    /\ model_is family model (pointee descriptor) = true
    /\ NoDup [context; address descriptor; io; stream; device]
    /\ Forall (fun l => heap st !! l = None)
         [context; address descriptor; io; stream; device]
    /\ label_of (pointee descriptor) (heap_of_session context descriptor io stream device (heap st)) label
    /\ heap (snd result)
       = with_label label
           (heap_of_session context descriptor io stream device (heap st))
    /\ In (E_dc_device_set_events device 14) (trace (snd result)).
Proof.
  cbv zeta. run_paths; intros Hrc; try congruence;
    try (match goal with
         | H : is_success ?rc = false |- _ =>
             rewrite Hrc in H; discriminate H
         end).
  all: name_fresh.
  all: match goal with
       | H : dc_iterator_find _ _ = Some _ |- _ =>
           apply dc_iterator_find_Some in H as [Hin Hmodel]
       end.
  all: do 6 eexists; split; [reflexivity|].
  all: cbn [pointee address]; split; [exact Hin|]; split; [exact Hmodel|].
  all: split;
    [repeat (apply NoDup_cons_2;
             [rewrite ?elem_of_cons, elem_of_nil; intuition congruence|]);
     apply NoDup_nil_2|].
  all: split; [repeat constructor; assumption|].
  all: unfold label_of, with_label, heap_of_session; cbn [pointee address].
  all: split;
    [first [ exact I
           | split;
             [rewrite !lookup_insert_ne by congruence; assumption
             | eauto] ]|].
  all: split; [reflexivity|].
  all: rewrite !in_app_iff; cbn [In]; auto 10.
Qed.

(** C10: a call of [open_ble_device] with a session and an address starts
    by zeroing the session, before it acquires anything: what the session
    held has no influence on the call, the first call out is the creation
    of the context, a call that fails there returns the zeroed session, and
    whatever was live before the call (so everything the old fields pointed
    to) is still live after it and is released by none of its calls.

    Zeroed means that every field is null or 0, field by field. The
    zeroing comes before the first acquisition and not after it: what the
    call acquires is stored in the session and stays there, so that a call
    that succeeds returns the context it created, live, and a call that
    fails at any step has freed it again, the heap being the one from
    before the call but for the descriptor. In the session of a call that
    succeeds every handle is a block that was not live before, and every
    other field is null or 0: nothing of the old session is left. *)
Theorem open_ble_device_zeroes_session_first env d devaddr family model st :
  let result := open_ble_device env (Some d) (Some devaddr) family model st in
  let zeroed :=
    DeviceData None None None None 0 (DevInfo 0 0 0) 0 (Progress 0 0) 0
      (Clock 0 0) None 0 None None None 0 0 in
  result
  = open_ble_device env (Some device_data_zero) (Some devaddr) family model st
  /\ (exists rest,
      trace (snd result)
      = trace st
        ++ E_enter_open_ble_device (Some devaddr) family model
           :: E_dc_context_new :: rest)
  /\ (is_success
        (env_dc_context_new env
           (trace st ++ [E_enter_open_ble_device (Some devaddr) family model]))
      = false ->
      snd (fst result) = Some device_data_zero)
  /\ (forall l b, heap st !! l = Some b -> heap (snd result) !! l = Some b)
  /\ (exists new,
      trace (snd result) = trace st ++ new
      /\ Forall (fun e => forall l, released_by e = Some l ->
                                    heap st !! l = None) new)
  /\ device_data_zero = zeroed
  /\ (forall d',
      open_ble_device env (Some d') (Some devaddr) family model st = result)
  /\ (fst (fst result) <> DC_STATUS_SUCCESS ->
      snd (fst result) = Some zeroed
      /\ (heap (snd result) = heap st
          \/ exists l, heap st !! l = None
                       /\ heap (snd result)
                          = <[l := B_descriptor]> (heap st)))
  /\ (fst (fst result) = DC_STATUS_SUCCESS ->
      exists data context,
        snd (fst result) = Some data
        /\ dd_context data = Some context
        /\ heap st !! context = None
        /\ heap (snd result) !! context = Some B_context
        /\ (forall l, dd_device data = Some l -> heap st !! l = None)
        /\ (forall s, dd_iostream data = Some s ->
                      heap st !! address s = None
                      /\ heap st !! ble_object (pointee s) = None)
        /\ (forall p, dd_descriptor data = Some p ->
                      heap st !! address p = None)
        /\ (forall m, dd_model data = Some m -> heap st !! address m = None)
        /\ dd_fingerprint data = None
        /\ dd_fsize data = 0
        /\ dd_fingerprint_context data = None
        /\ dd_lookup_fingerprint data = None
        /\ dd_have_devinfo data = 0
        /\ dd_devinfo data = DevInfo 0 0 0
        /\ dd_have_progress data = 0
        /\ dd_progress data = Progress 0 0
        /\ dd_have_clock data = 0
        /\ dd_clock data = Clock 0 0
        /\ dd_fdeviceid data = 0
        /\ dd_fdiveid data = 0).
Proof.
  cbv zeta. split; [reflexivity|].
  split; [|split; [|split; [|split; [|split; [|split; [|split]]]]]].
  - run_paths; rewrite <- ?app_assoc; cbn [app]; eexists; reflexivity.
  - intros Hctx. unfold open_ble_device, dc_context_new. run_monad.
    repeat (rewrite Hctx; simpl_session; run_monad). reflexivity.
  - intros l b Hl.
    pose proof (open_ble_device_keeps_heap env d devaddr family model st) as H.
    rewrite map_subseteq_spec in H. now apply H.
  - apply open_ble_device_releases_own.
  - reflexivity.
  - reflexivity.
  - intros Hrc. split.
    + revert Hrc. run_paths; intros Hrc; first [reflexivity | congruence].
    + now apply open_ble_device_failure_heap.
  - intros Hrc.
    destruct (open_ble_device_success_cases env d devaddr family model st Hrc)
      as (context & descriptor & io & stream & device & label & Hdata & _
          & _ & Hnodup & Hfree & Hlabel & Hheap & _).
    apply NoDup_five in Hnodup
      as (N1 & N2 & N3 & N4 & N5 & N6 & N7 & N8 & N9 & N10).
    apply Forall_cons in Hfree as [F1 Hfree].
    apply Forall_cons in Hfree as [F2 Hfree].
    apply Forall_cons in Hfree as [F3 Hfree].
    apply Forall_cons in Hfree as [F4 Hfree].
    apply Forall_cons in Hfree as [F5 _].
    exists (opened_session context descriptor io stream device label),
      context.
    split; [exact Hdata|]. split; [reflexivity|]. split; [exact F1|].
    split.
    { rewrite Hheap.
      assert (heap_of_session context descriptor io stream device (heap st)
              !! context = Some B_context) as Hc.
      { unfold heap_of_session.
        rewrite !lookup_insert_ne by congruence. apply lookup_insert_eq. }
      destruct label as [m|]; cbn [with_label]; [|exact Hc].
      destruct Hlabel as [Hm _].
      rewrite lookup_insert_ne; [exact Hc|].
      intros E. rewrite E in Hm. congruence. }
    split; [intros l [= <-]; exact F5|].
    split; [intros s [= <-]; split; [exact F4 | exact F3]|].
    split; [intros p [= <-]; exact F2|].
    split.
    { intros m Hm. change (label = Some m) in Hm. subst label.
      destruct Hlabel as [Hm _]. unfold heap_of_session in Hm.
      repeat (apply lookup_insert_None in Hm as [Hm _]). exact Hm. }
    repeat split; reflexivity.
Qed.

Lemma open_ble_device_zeroes_session_first_witness :
  snd (fst (open_ble_device (env_no_context catalog_full) (Some stale_session)
              (Some "6F1A-22C0") DC_FAMILY_SUUNTO_EONSTEEL 0 stale_state))
  = Some device_data_zero
  /\ heap (snd (open_ble_device (env_no_context catalog_full)
                  (Some stale_session) (Some "6F1A-22C0")
                  DC_FAMILY_SUUNTO_EONSTEEL 0 stale_state)) !! 4%nat
     = Some B_device.
Proof.
  destruct (open_ble_device_zeroes_session_first
              (env_no_context catalog_full) stale_session "6F1A-22C0"
              DC_FAMILY_SUUNTO_EONSTEEL 0 stale_state)
    as (_ & _ & Hzero & Hlive & _).
  split; [apply Hzero; reflexivity | apply Hlive; reflexivity].
Defined.

(** C5 at a failing input: the catalog knows the model, the peripheral
    cannot be reached. The call fails with the I/O status after it released
    the BLE object and the context, and the descriptor it got from
    [find_descriptor_by_model] is still allocated: nothing freed it. *)
Theorem open_ble_device_failure_leaks_descriptor :
  let result :=
    open_ble_device (env_unreachable catalog_full) (Some device_data_zero)
      (Some "6F1A-22C0") DC_FAMILY_SUUNTO_EONSTEEL 0 initial_state in
  fst (fst result) = DC_STATUS_IO
  /\ snd (fst result) = Some device_data_zero
  /\ trace (snd result)
     = [E_enter_open_ble_device (Some "6F1A-22C0") DC_FAMILY_SUUNTO_EONSTEEL 0;
        E_dc_context_new; E_dc_descriptor_iterator; E_initializeBLEManager;
        E_createBLEObject; E_connectToBLEDevice 2%nat "6F1A-22C0";
        E_freeBLEObject 2%nat; E_dc_context_free 0%nat]
  /\ heap initial_state !! 1%nat = None
  /\ heap (snd result) !! 1%nat = Some B_descriptor.
Proof. vm_compute. repeat split. Qed.

(** C2 as it is stated fails: the empty address is not null, so the guard
    lets it through; the call creates a context, finds the descriptor and
    hands the address to the transport, and the status is the transport's
    (I/O here, the peripheral being unreachable), not InvalidArguments. *)
Lemma open_ble_device_empty_address_goes_on :
  let result :=
    open_ble_device (env_unreachable catalog_full) (Some device_data_zero)
      (Some "") DC_FAMILY_SUUNTO_EONSTEEL 0 initial_state in
  fst (fst result) = DC_STATUS_IO
  /\ fst (fst result) <> DC_STATUS_INVALIDARGS
  /\ trace (snd result)
     = [E_enter_open_ble_device (Some "") DC_FAMILY_SUUNTO_EONSTEEL 0;
        E_dc_context_new; E_dc_descriptor_iterator; E_initializeBLEManager;
        E_createBLEObject; E_connectToBLEDevice 2%nat "";
        E_freeBLEObject 2%nat; E_dc_context_free 0%nat].
Proof. vm_compute. repeat split. discriminate. Qed.

(** C2, as the code has it: with a null address (or a null session) the
    call fails with InvalidArguments, calls nothing and leaves the heap and
    the session alone; with any address that is not null, the empty one
    included, the call goes on to create the context. The empty address is
    then treated as any other one: once the context is created, the
    descriptor found and the BLE object made, it is handed to the connect
    step of the transport; and the call returns InvalidArguments for it
    only when one of the calls into libdivecomputer reports that status,
    never because the address is empty. *)
Theorem open_ble_device_null_arguments env data devaddr family model st :
  (data = None \/ devaddr = None ->
   open_ble_device env data devaddr family model st
   = ((DC_STATUS_INVALIDARGS, data),
      State (heap st)
        (trace st ++ [E_enter_open_ble_device devaddr family model])))
  /\ (forall d, exists rest,
      trace (snd (open_ble_device env (Some d) (Some "") family model st))
      = trace st
        ++ E_enter_open_ble_device (Some "") family model
           :: E_dc_context_new :: rest)
  /\ (forall d descriptor,
      let entered :=
        trace st ++ [E_enter_open_ble_device (Some "") family model] in
      let created := entered ++ [E_dc_context_new] in
      let looked_up := created ++ [E_dc_descriptor_iterator] in
      let initialized := looked_up ++ [E_initializeBLEManager] in
      is_success (env_dc_context_new env entered) = true ->
      is_success (env_dc_descriptor_iterator env created) = true ->
      dc_iterator_find
        (fun d => (dc_descriptor_get_type d =? family)
                  && (dc_descriptor_get_model d =? model))
        (env_catalog env) = Some descriptor ->
      env_createBLEObject env initialized = true ->
      exists io rest,
        trace (snd (open_ble_device env (Some d) (Some "") family model st))
        = initialized
          ++ E_createBLEObject :: E_connectToBLEDevice io "" :: rest)
  /\ (forall d,
      fst (fst (open_ble_device env (Some d) (Some "") family model st))
      = DC_STATUS_INVALIDARGS ->
      exists h,
        env_dc_context_new env h = DC_STATUS_INVALIDARGS
        \/ env_dc_descriptor_iterator env h = DC_STATUS_INVALIDARGS
        \/ (exists descriptor,
              env_dc_device_open env h descriptor = DC_STATUS_INVALIDARGS)
        \/ env_dc_device_set_events env h = DC_STATUS_INVALIDARGS).
Proof.
  split; [|split; [|split]].
  - intros [-> | ->]; [|destruct data]; reflexivity.
  - intros d.
    run_paths; rewrite <- ?app_assoc; cbn [app]; eexists; reflexivity.
  - intros d descriptor. cbv zeta. intros Hctx Hit Hfind Hio.
    run_paths; try congruence;
      do 2 eexists; rewrite <- ?app_assoc; cbn [app]; reflexivity.
  - intros d.
    run_paths; intros Hrc; try congruence; eexists;
      first [ left; exact Hrc
            | right; left; exact Hrc
            | right; right; left; eexists; exact Hrc
            | right; right; right; exact Hrc ].
Qed.

(** C2 at samples: a null address is refused before anything is called;
    the empty address reaches the connect step of a transport that
    answers. *)
Lemma open_ble_device_null_arguments_witness :
  open_ble_device (env_success catalog_full) (Some device_data_zero) None
    DC_FAMILY_SUUNTO_EONSTEEL 0 initial_state
  = ((DC_STATUS_INVALIDARGS, Some device_data_zero),
     State ∅ [E_enter_open_ble_device None DC_FAMILY_SUUNTO_EONSTEEL 0])
  /\ exists io rest,
      trace (snd (open_ble_device (env_success catalog_full)
                    (Some device_data_zero) (Some "")
                    DC_FAMILY_SUUNTO_EONSTEEL 0 initial_state))
      = [E_enter_open_ble_device (Some "") DC_FAMILY_SUUNTO_EONSTEEL 0;
         E_dc_context_new; E_dc_descriptor_iterator; E_initializeBLEManager]
        ++ E_createBLEObject :: E_connectToBLEDevice io "" :: rest.
Proof.
  destruct (open_ble_device_null_arguments (env_success catalog_full)
              (Some device_data_zero) None DC_FAMILY_SUUNTO_EONSTEEL 0
              initial_state) as (Hnull & _ & _ & _).
  destruct (open_ble_device_null_arguments (env_success catalog_full)
              (Some device_data_zero) (Some "") DC_FAMILY_SUUNTO_EONSTEEL 0
              initial_state) as (_ & _ & Hconnect & _).
  split; [apply Hnull; right; reflexivity|].
  exact (Hconnect device_data_zero suunto_eon_steel eq_refl eq_refl eq_refl
           eq_refl).
Defined.

(** ** Opening with identification *)

Lemma scan_name_patterns_entries env name :
  forall patterns st,
    entries (trace (snd (scan_name_patterns env patterns name st)))
    = entries (trace st).
Proof.
  induction patterns as [|p rest IH]; intros st; [reflexivity|].
  rewrite scan_name_patterns_cons.
  destruct (pattern_matches p name); [|apply IH].
  unfold dc_descriptor_iterator. run_monad.
  destruct (is_success _); cbn [negb].
  - destruct (dc_iterator_find _ _).
    + run_monad. rewrite entries_app. apply app_nil_r.
    + rewrite IH. cbn [trace]. rewrite entries_app. apply app_nil_r.
  - run_monad. rewrite entries_app. apply app_nil_r.
Qed.

Lemma find_descriptor_by_name_entries env name st :
  entries (trace (snd (find_descriptor_by_name env name st)))
  = entries (trace st).
Proof.
  unfold find_descriptor_by_name. rewrite run_bind.
  pose proof (scan_name_patterns_entries env name name_patterns st) as H.
  destruct (scan_name_patterns env name_patterns name st) as [[r|] st'];
    cbn [snd] in H; [exact H|].
  unfold dc_descriptor_iterator. run_monad.
  destruct (is_success _); cbn [negb]; [destruct (dc_iterator_find _ _)|];
    run_monad; rewrite entries_app, H; apply app_nil_r.
Qed.

(** Name resolution enters no other session-level operation, and returns a
    family and a model exactly when it succeeds. *)
Lemma get_device_info_from_name_spec env name st :
  let r := get_device_info_from_name env name st in
  entries (trace (snd r))
  = entries (trace st) ++ [E_enter_get_device_info_from_name name]
  /\ ((fst (fst r) = DC_STATUS_SUCCESS /\ exists info, snd (fst r) = Some info)
      \/ (fst (fst r) <> DC_STATUS_SUCCESS /\ snd (fst r) = None)).
Proof.
  cbv zeta. unfold get_device_info_from_name. run_monad.
  pose proof (find_descriptor_by_name_entries env name
                (State (heap st)
                   (trace st ++ [E_enter_get_device_info_from_name name])))
    as H.
  destruct (find_descriptor_by_name env name _) as [[rc descriptor] st'].
  cbn [snd trace] in H. rewrite entries_app in H.
  destruct (is_success rc) eqn:Hrc; cbn [negb].
  - unfold dc_descriptor_free. destruct descriptor as [d|]; run_monad.
    + rewrite entries_app, H. rewrite app_nil_r. split; [reflexivity|].
      left. split; [reflexivity | eauto].
    + split; [exact H|]. left. split; [reflexivity | eauto].
  - run_monad. split; [exact H|]. right.
    split; [now apply is_success_false | reflexivity].
Qed.

(** C6: once the session is allocated, the stored family and model are
    tried first exactly when the family is not the null family and the
    model is not 0; when that open succeeds the session is returned and name
    resolution is never entered. Otherwise (the stored open failed, or there
    is no stored pair) the name is resolved: a failure to resolve is
    returned as it is, and else the session is opened with the resolved
    family and model and the status of that open is returned. *)
Theorem open_ble_device_with_identification_order
    env name address stored_family stored_model st :
  env_malloc env (trace st) = true ->
  let stored :=
    negb (stored_family =? DC_FAMILY_NULL) && negb (stored_model =? 0) in
  let p := fresh (dom (heap st)) in
  let st0 :=
    State (<[p := B_device_data]> (heap st)) (trace st ++ [E_calloc]) in
  let attempt :=
    open_ble_device env (Some device_data_zero) address stored_family
      stored_model st0 in
  let st1 := if stored then snd attempt else st0 in
  let data1 := if stored then snd (fst attempt) else Some device_data_zero in
  let tried :=
    if stored
    then [E_enter_open_ble_device address stored_family stored_model]
    else [] in
  let resolution := get_device_info_from_name env name st1 in
  let result :=
    open_ble_device_with_identification env name address stored_family
      stored_model st in
  if stored && is_success (fst (fst attempt)) then
    fst (fst result) = DC_STATUS_SUCCESS
    /\ snd (fst result)
       = Some (Ptr p (default device_data_zero (snd (fst attempt))))
    /\ snd result = snd attempt
    /\ entries (trace (snd result))
       = entries (trace st)
         ++ [E_enter_open_ble_device address stored_family stored_model]
  else
    match snd (fst resolution) with
    | None =>
        fst (fst result) = fst (fst resolution)
        /\ fst (fst result) <> DC_STATUS_SUCCESS
        /\ snd (fst result) = None
        /\ entries (trace (snd result))
           = entries (trace st) ++ tried
             ++ [E_enter_get_device_info_from_name name]
    | Some (family, model) =>
        let second :=
          open_ble_device env data1 address family model (snd resolution) in
        fst (fst resolution) = DC_STATUS_SUCCESS
        /\ fst (fst result) = fst (fst second)
        /\ snd (fst result)
           = (if is_success (fst (fst second))
              then Some (Ptr p (default device_data_zero (snd (fst second))))
              else None)
        /\ entries (trace (snd result))
           = entries (trace st) ++ tried
             ++ [E_enter_get_device_info_from_name name;
                 E_enter_open_ble_device address family model]
    end.
Proof.
  intros Hmalloc stored p st0 attempt st1 data1 tried resolution result.
  assert (result
          = let identify (data : option device_data_t) st :=
              let '((rc, info), st') :=
                get_device_info_from_name env name st in
              if negb (is_success rc) then
                ((rc, None),
                 State (delete p (heap st')) (trace st' ++ [E_free p]))
              else
                let '(family, model) := default (DC_FAMILY_NULL, 0) info in
                let '((rc, data), st'') :=
                  open_ble_device env data address family model st' in
                if negb (is_success rc) then
                  ((rc, None),
                   State (delete p (heap st'')) (trace st'' ++ [E_free p]))
                else
                  ((DC_STATUS_SUCCESS,
                    Some (Ptr p (default device_data_zero data))), st'') in
            if stored then
              let '((rc, data), st') := attempt in
              if is_success rc then
                ((DC_STATUS_SUCCESS,
                  Some (Ptr p (default device_data_zero data))), st')
              else identify data st'
            else identify (Some device_data_zero) st0) as Hresult.
  { subst result resolution data1 st1 tried attempt st0 p stored.
    unfold open_ble_device_with_identification, calloc, free.
    run_monad. rewrite Hmalloc. run_monad.
    destruct (negb (stored_family =? DC_FAMILY_NULL)
              && negb (stored_model =? 0));
      repeat first
        [ reflexivity
        | match goal with
          | |- context [is_success ?rc] => destruct (is_success rc)
          | |- context [default (DC_FAMILY_NULL, 0) ?i] =>
              destruct (default (DC_FAMILY_NULL, 0) i)
          | |- context [get_device_info_from_name ?e ?n ?s] =>
              destruct (get_device_info_from_name e n s) as [[? ?] ?]
          | |- context [open_ble_device ?e ?d ?a ?f ?m ?s] =>
              destruct (open_ble_device e d a f m s) as [[? ?] ?]
          end; cbn [negb]; run_monad ]. }
  pose proof (open_ble_device_entries env (Some device_data_zero) address
                stored_family stored_model st0) as Hattempt.
  fold attempt in Hattempt. cbn [trace st0] in Hattempt.
  rewrite entries_app in Hattempt.
  cbn [entries List.filter is_entry] in Hattempt.
  rewrite app_nil_r in Hattempt.
  assert (entries (trace st1) = entries (trace st) ++ tried) as Hst1.
  { subst st1 tried. destruct stored; [exact Hattempt|].
    cbn [trace st0]. rewrite entries_app. reflexivity. }
  pose proof (get_device_info_from_name_spec env name st1) as Hres.
  fold resolution in Hres. cbv zeta in Hres. destruct Hres as [Hentries Hinfo].
  rewrite Hst1, <- app_assoc in Hentries.
  rewrite Hresult. clear Hresult. cbv zeta.
  assert (forall data,
            data = data1 ->
            match snd (fst resolution) with
            | None => True
            | Some (family, model) =>
                entries (trace (snd (open_ble_device env data address family
                                       model (snd resolution))))
                = entries (trace st) ++ tried
                  ++ [E_enter_get_device_info_from_name name;
                      E_enter_open_ble_device address family model]
            end) as Hsecond.
  { intros data _. destruct (snd (fst resolution)) as [[family model]|];
      [|exact I].
    rewrite open_ble_device_entries, Hentries, <- !app_assoc. reflexivity. }
  destruct stored; cbn [andb].
  - subst st1 data1. destruct attempt as [[rc1 d1] s1] eqn:Hatt.
    cbn [fst snd] in *.
    destruct (is_success rc1) eqn:Hrc1.
    + cbn [fst snd]. repeat split; try reflexivity. exact Hattempt.
    + specialize (Hsecond d1 eq_refl).
      assert (resolution = get_device_info_from_name env name s1) as Hr
        by reflexivity.
      clearbody resolution. rewrite <- Hr. clear Hr.
      destruct resolution as [[rc info] s2]. cbn [fst snd] in *.
      destruct Hinfo as [[-> [i ->]] | [Hrc ->]].
      * destruct i as [family model].
        cbn [is_success negb from_option id].
        destruct (open_ble_device env d1 address family model s2)
          as [[rc2 d2] s3] eqn:Hopen.
        cbn [fst snd] in *.
        destruct (is_success rc2) eqn:Hrc2; cbn [negb fst snd trace].
        -- apply is_success_true in Hrc2. subst rc2.
           repeat split; try reflexivity. exact Hsecond.
        -- repeat split; try reflexivity. rewrite entries_app, Hsecond.
           cbn [entries List.filter is_entry]. apply app_nil_r.
      * apply is_success_false in Hrc as Hrc'. rewrite Hrc'.
        cbn [negb fst snd trace]. repeat split; try reflexivity;
          try assumption.
        rewrite entries_app, Hentries.
        cbn [entries List.filter is_entry]. apply app_nil_r.
  - subst st1 data1. specialize (Hsecond (Some device_data_zero) eq_refl).
    assert (resolution = get_device_info_from_name env name st0) as Hr
      by reflexivity.
    clearbody resolution. rewrite <- Hr. clear Hr.
    destruct resolution as [[rc info] s2]. cbn [fst snd] in *.
    destruct Hinfo as [[-> [i ->]] | [Hrc ->]].
    + destruct i as [family model].
      cbn [is_success negb from_option id].
      destruct (open_ble_device env (Some device_data_zero) address family
                  model s2) as [[rc2 d2] s3] eqn:Hopen.
      cbn [fst snd] in *.
      destruct (is_success rc2) eqn:Hrc2; cbn [negb fst snd trace].
      * apply is_success_true in Hrc2. subst rc2.
        repeat split; try reflexivity. exact Hsecond.
      * repeat split; try reflexivity. rewrite entries_app, Hsecond.
        cbn [entries List.filter is_entry]. apply app_nil_r.
    + apply is_success_false in Hrc as Hrc'. rewrite Hrc'.
      cbn [negb fst snd trace]. repeat split; try reflexivity;
        try assumption.
      rewrite entries_app, Hentries.
      cbn [entries List.filter is_entry]. apply app_nil_r.
Qed.

(** When the session cannot be allocated nothing is tried. *)
Lemma open_ble_device_with_identification_no_memory
    env name address stored_family stored_model st :
  env_malloc env (trace st) = false ->
  open_ble_device_with_identification env name address stored_family
    stored_model st
  = ((DC_STATUS_NOMEMORY, None), State (heap st) (trace st ++ [E_calloc])).
Proof.
  intros H. unfold open_ble_device_with_identification, calloc. run_monad.
  rewrite H. reflexivity.
Qed.

(** C6 at a sample: the stored pair of a Peregrine TX opens, and name
    resolution is not entered. *)
Lemma open_ble_device_with_identification_order_witness :
  let result :=
    open_ble_device_with_identification (env_success catalog_full)
      "Peregrine" (Some "6F1A-22C0") DC_FAMILY_SHEARWATER_PETREL 13
      initial_state in
  fst (fst result) = DC_STATUS_SUCCESS
  /\ entries (trace (snd result))
     = [E_enter_open_ble_device (Some "6F1A-22C0")
          DC_FAMILY_SHEARWATER_PETREL 13].
Proof.
  intros result.
  pose proof (open_ble_device_with_identification_order
                (env_success catalog_full) "Peregrine"
                (Some "6F1A-22C0") DC_FAMILY_SHEARWATER_PETREL 13
                initial_state eq_refl) as H.
  cbv zeta in H.
  change (negb (DC_FAMILY_SHEARWATER_PETREL =? DC_FAMILY_NULL)
          && negb (13 =? 0)
          && is_success
               (fst (fst (open_ble_device (env_success catalog_full)
                            (Some device_data_zero) (Some "6F1A-22C0")
                            DC_FAMILY_SHEARWATER_PETREL 13
                            (State
                               (<[fresh (dom (heap initial_state))
                                  := B_device_data]> (heap initial_state))
                               (trace initial_state ++ [E_calloc]))))))
    with true in H.
  destruct H as (Hrc & _ & _ & Hentries).
  split; [exact Hrc | exact Hentries].
Defined.

(** * More of the unit *)

(** * Further properties of the unit *)

(** ** The catalog loop *)

Lemma dc_iterator_find_split test catalog d :
  dc_iterator_find test catalog = Some d ->
  exists pre post,
    catalog = pre ++ d :: post /\ test d = true
    /\ Forall (fun x => test x = false) pre.
Proof.
  induction catalog as [|x rest IH]; simpl; [discriminate|].
  destruct (test x) eqn:E.
  - intros [= ->]. exists [], rest. auto.
  - intros H. destruct (IH H) as (pre & post & -> & Hd & Hpre).
    exists (x :: pre), post. auto.
Qed.

Lemma dc_iterator_find_None test catalog :
  dc_iterator_find test catalog = None ->
  forall d, In d catalog -> test d = false.
Proof.
  induction catalog as [|x rest IH]; simpl; [tauto|].
  destruct (test x) eqn:E; [discriminate|].
  intros H d [<- | Hd]; auto.
Qed.

Lemma dc_iterator_find_some_of test catalog d :
  In d catalog -> test d = true ->
  exists d', dc_iterator_find test catalog = Some d'.
Proof.
  intros Hin Hd. destruct (dc_iterator_find test catalog) eqn:E; [eauto|].
  rewrite (dc_iterator_find_None _ _ E d Hin) in Hd. discriminate.
Qed.

Lemma fresh_free (h : gmap loc block) : h !! fresh (dom h) = None.
Proof. apply not_elem_of_dom, is_fresh. Qed.

(** [find_descriptor_by_model] returns a descriptor with the Success status
    only, and leaves the heap alone otherwise. *)
Lemma find_descriptor_by_model_cases env family model st :
  match fst (find_descriptor_by_model env family model st) with
  | (rc, Some d) =>
      rc = DC_STATUS_SUCCESS
      /\ address d = fresh (dom (heap st))
      /\ heap (snd (find_descriptor_by_model env family model st))
         = <[fresh (dom (heap st)) := B_descriptor]> (heap st)
      /\ In (pointee d) (env_catalog env)
      /\ model_is family model (pointee d) = true
  | (rc, None) =>
      rc <> DC_STATUS_SUCCESS
      /\ heap (snd (find_descriptor_by_model env family model st)) = heap st
  end.
Proof.
  unfold find_descriptor_by_model, dc_descriptor_iterator. run_monad.
  change (fun d : dc_descriptor_t =>
            (dc_descriptor_get_type d =? family)
            && (dc_descriptor_get_model d =? model))
    with (model_is family model).
  destruct (is_success _) eqn:Hrc; cbn [negb].
  - destruct (dc_iterator_find _ _) as [d|] eqn:Hfind; run_monad.
    + apply dc_iterator_find_Some in Hfind as [Hin Hd]. auto.
    + split; [discriminate | reflexivity].
  - run_monad. split; [now apply is_success_false | reflexivity].
Qed.

(** X1: [find_descriptor_by_model] hands the status of a failed iterator
    creation on and allocates nothing; with an iterator it returns the
    first descriptor of the catalog that has both the family and the model
    asked for, in a block of its own, and the Unsupported status, with the
    heap as it was, exactly when the catalog has no such descriptor. *)
Theorem find_descriptor_by_model_first_of_catalog env family model st :
  let rc := env_dc_descriptor_iterator env (trace st) in
  let result := find_descriptor_by_model env family model st in
  trace (snd result) = trace st ++ [E_dc_descriptor_iterator]
  /\ if is_success rc then
       match dc_iterator_find (model_is family model) (env_catalog env) with
       | Some d =>
           fst result
           = (DC_STATUS_SUCCESS, Some (Ptr (fresh (dom (heap st))) d))
           /\ heap (snd result)
              = <[fresh (dom (heap st)) := B_descriptor]> (heap st)
           /\ dc_descriptor_get_type d = family
           /\ dc_descriptor_get_model d = model
           /\ exists pre post,
               env_catalog env = pre ++ d :: post
               /\ Forall (fun x => model_is family model x = false) pre
       | None =>
           fst result = (DC_STATUS_UNSUPPORTED, None)
           /\ heap (snd result) = heap st
           /\ forall d, In d (env_catalog env) ->
                        model_is family model d = false
       end
     else fst result = (rc, None) /\ heap (snd result) = heap st.
Proof.
  cbv zeta. unfold find_descriptor_by_model, dc_descriptor_iterator.
  run_monad.
  change (fun d : dc_descriptor_t =>
            (dc_descriptor_get_type d =? family)
            && (dc_descriptor_get_model d =? model))
    with (model_is family model).
  destruct (is_success _) eqn:Hrc; cbn [negb].
  - destruct (dc_iterator_find _ _) as [d|] eqn:Hfind; run_monad.
    + repeat split.
      * apply dc_iterator_find_Some in Hfind as [_ H].
        apply andb_true_iff in H as [H _]. now apply Z.eqb_eq.
      * apply dc_iterator_find_Some in Hfind as [_ H].
        apply andb_true_iff in H as [_ H]. now apply Z.eqb_eq.
      * apply dc_iterator_find_split in Hfind as (pre & post & ? & _ & ?).
        eauto.
    + repeat split. now apply dc_iterator_find_None.
  - run_monad. auto.
Qed.

Lemma find_descriptor_by_model_first_of_catalog_witness :
  fst (find_descriptor_by_model (env_success catalog_full)
         DC_FAMILY_SHEARWATER_PETREL 11 initial_state)
  = (DC_STATUS_SUCCESS, Some (Ptr 0%nat shearwater_perdix_2))
  /\ fst (find_descriptor_by_model (env_success catalog_full)
            DC_FAMILY_SHEARWATER_PETREL 99 initial_state)
     = (DC_STATUS_UNSUPPORTED, None).
Proof.
  split.
  - destruct (find_descriptor_by_model_first_of_catalog
                (env_success catalog_full) DC_FAMILY_SHEARWATER_PETREL 11
                initial_state) as [_ H].
    apply H.
  - destruct (find_descriptor_by_model_first_of_catalog
                (env_success catalog_full) DC_FAMILY_SHEARWATER_PETREL 99
                initial_state) as [_ H].
    apply H.
Defined.

(** ** Resolution by name, in every environment *)

(** The three ways out of the loop over the table. *)
Lemma scan_name_patterns_cases env name :
  forall patterns st,
    let r := scan_name_patterns env patterns name st in
    match fst r with
    | None => heap (snd r) = heap st
    | Some (rc, None) => rc <> DC_STATUS_SUCCESS /\ heap (snd r) = heap st
    | Some (rc, Some p) =>
        rc = DC_STATUS_SUCCESS
        /\ address p = fresh (dom (heap st))
        /\ heap (snd r) = <[fresh (dom (heap st)) := B_descriptor]> (heap st)
        /\ In (pointee p) (env_catalog env)
        /\ exists e,
            In e patterns /\ pattern_matches e name = true
            /\ dc_descriptor_get_vendor (pointee p) = Some (np_vendor e)
            /\ dc_descriptor_get_product (pointee p) = Some (np_product e)
    end.
Proof.
  induction patterns as [|e rest IH]; intros st; [reflexivity|].
  cbv zeta. rewrite scan_name_patterns_cons.
  destruct (pattern_matches e name) eqn:Hm.
  - unfold dc_descriptor_iterator. run_monad.
    destruct (is_success _) eqn:Hrc; cbn [negb].
    + destruct (dc_iterator_find _ _) as [d|] eqn:Hfind.
      * run_monad. cbn [address pointee].
        pose proof Hfind as [Hin Hvp]%dc_iterator_find_Some.
        apply vendor_product_is_spec in Hvp as [Hv Hp].
        repeat split; try assumption.
        exists e. repeat split; try assumption. now left.
      * specialize (IH (State (heap st)
                          (trace st ++ [E_dc_descriptor_iterator]))).
        cbv zeta in IH. cbn [heap] in IH.
        destruct (scan_name_patterns env rest name _) as [[[rc [p|]]|] st'];
          cbn [fst snd] in *; try assumption.
        destruct IH as (? & ? & ? & ? & e' & ? & ?).
        repeat split; try assumption. exists e'. split; [now right|].
        assumption.
    + run_monad. split; [now apply is_success_false | reflexivity].
  - specialize (IH st). cbv zeta in IH.
    destruct (scan_name_patterns env rest name st) as [[[rc [p|]]|] st'];
      cbn [fst snd] in *; try assumption.
    destruct IH as (? & ? & ? & ? & e' & ? & ?).
    repeat split; try assumption. exists e'. split; [now right|].
    assumption.
Qed.

(** The ways out of [find_descriptor_by_name]. *)
Lemma find_descriptor_by_name_cases env name st :
  let result := find_descriptor_by_name env name st in
  match fst result with
  | (rc, Some p) =>
      rc = DC_STATUS_SUCCESS
      /\ address p = fresh (dom (heap st))
      /\ heap (snd result)
         = <[fresh (dom (heap st)) := B_descriptor]> (heap st)
      /\ In (pointee p) (env_catalog env)
      /\ ((exists e,
            In e name_patterns /\ pattern_matches e name = true
            /\ dc_descriptor_get_vendor (pointee p) = Some (np_vendor e)
            /\ dc_descriptor_get_product (pointee p) = Some (np_product e))
          \/ ble_filter_accepts name (pointee p) = true)
  | (rc, None) => rc <> DC_STATUS_SUCCESS /\ heap (snd result) = heap st
  end.
Proof.
  cbv zeta. unfold find_descriptor_by_name. rewrite run_bind.
  pose proof (scan_name_patterns_cases env name name_patterns st) as H.
  cbv zeta in H.
  destruct (scan_name_patterns env name_patterns name st)
    as [[[rc [p|]]|] st']; cbn [fst snd] in *.
  - rewrite run_ret. cbn [fst snd].
    destruct H as (? & ? & ? & ? & ?). auto 6.
  - rewrite run_ret. exact H.
  - unfold dc_descriptor_iterator. run_monad.
    destruct (is_success _) eqn:Hrc; cbn [negb].
    + destruct (dc_iterator_find _ _) as [d|] eqn:Hfind; run_monad.
      * cbn [address pointee]. rewrite H.
        apply dc_iterator_find_Some in Hfind as [Hin Hf].
        repeat split; auto.
      * split; [discriminate | exact H].
    + run_monad. split; [now apply is_success_false | exact H].
Qed.

(** X2: in every environment, [find_descriptor_by_name] returns a
    descriptor exactly with the Success status; the descriptor is one of
    the catalog, in a block of its own, and either it has the vendor and
    product of a table entry that accepts the name or it is BLE capable and
    its filter accepts the name. Whenever it fails it returns no descriptor
    and leaves the heap as it was. *)
Theorem find_descriptor_by_name_sound env name st :
  let result := find_descriptor_by_name env name st in
  match fst result with
  | (rc, Some p) =>
      rc = DC_STATUS_SUCCESS
      /\ address p = fresh (dom (heap st))
      /\ heap (snd result)
         = <[fresh (dom (heap st)) := B_descriptor]> (heap st)
      /\ In (pointee p) (env_catalog env)
      /\ ((exists e,
            In e name_patterns /\ pattern_matches e name = true
            /\ dc_descriptor_get_vendor (pointee p) = Some (np_vendor e)
            /\ dc_descriptor_get_product (pointee p) = Some (np_product e))
          \/ ble_filter_accepts name (pointee p) = true)
  | (rc, None) => rc <> DC_STATUS_SUCCESS /\ heap (snd result) = heap st
  end.
Proof. apply find_descriptor_by_name_cases. Qed.

Lemma find_descriptor_by_name_sound_witness :
  exists p,
    fst (find_descriptor_by_name (env_success catalog_full) "Perdix 2 4F"
           initial_state) = (DC_STATUS_SUCCESS, Some p)
    /\ In (pointee p) catalog_full.
Proof.
  pose proof (find_descriptor_by_name_sound (env_success catalog_full)
                "Perdix 2 4F" initial_state) as H.
  cbv zeta in H.
  destruct (fst (find_descriptor_by_name (env_success catalog_full)
                   "Perdix 2 4F" initial_state)) as [rc [p|]] eqn:E.
  - exists p. destruct H as (-> & _ & _ & Hin & _). split; [reflexivity|].
    exact Hin.
  - exfalso. vm_compute in E. discriminate E.
Defined.

(** ** The table *)

Lemma name_patterns_reach_themselves :
  forallb reaches_itself name_patterns = true.
Proof. vm_compute. reflexivity. Qed.

Lemma find_conj {A} (f g : A -> bool) (l : list A) (x : A) :
  List.find f l = Some x -> g x = true ->
  List.find (fun y => f y && g y) l = Some x.
Proof.
  induction l as [|a l IH]; simpl; [discriminate|].
  destruct (f a) eqn:E; simpl.
  - intros [= ->] ->. reflexivity.
  - auto.
Qed.

(** X3: no entry of the table is shadowed by an earlier one. For every
    entry, the entry's own key as a name is first accepted by that entry;
    so, when the catalog has the entry's vendor and product and iterators
    are created, the key resolves to a descriptor with that vendor and
    product. *)
Theorem every_pattern_is_reachable env p st :
  In p name_patterns ->
  first_accepting (np_prefix p) = Some p
  /\ (iterators_succeed env ->
      in_catalog (env_catalog env) p = true ->
      exists d,
        descriptor_of (fst (find_descriptor_by_name env (np_prefix p) st))
        = (DC_STATUS_SUCCESS, Some d)
        /\ dc_descriptor_get_vendor d = Some (np_vendor p)
        /\ dc_descriptor_get_product d = Some (np_product p)).
Proof.
  intros Hin.
  assert (first_accepting (np_prefix p) = Some p) as Hfirst.
  { pose proof name_patterns_reach_themselves as H.
    rewrite forallb_forall in H. specialize (H p Hin).
    unfold reaches_itself in H.
    destruct (first_accepting (np_prefix p)) as [q|]; [|discriminate].
    apply bool_decide_eq_true in H. now subst q. }
  split; [exact Hfirst|]. intros Hit Hcat.
  rewrite find_descriptor_by_name_spec by exact Hit.
  unfold resolve_by_name, selected_pattern.
  rewrite (find_conj _ (in_catalog (env_catalog env)) _ _ Hfirst Hcat).
  unfold in_catalog in Hcat.
  destruct (dc_iterator_find _ (env_catalog env)) as [d|] eqn:Hd;
    [|discriminate].
  exists d. split; [reflexivity|].
  apply dc_iterator_find_Some in Hd as [_ Hd].
  now apply vendor_product_is_spec.
Qed.

Lemma every_pattern_is_reachable_witness :
  first_accepting "OSTC"
  = Some (NamePattern "OSTC" "Heinrichs Weikamp" "OSTC 2" MATCH_EXACT).
Proof.
  apply (every_pattern_is_reachable (env_success catalog_full)
           (NamePattern "OSTC" "Heinrichs Weikamp" "OSTC 2" MATCH_EXACT)
           initial_state).
  apply list_elem_of_In. apply (bool_decide_unpack _). vm_compute. exact I.
Defined.

Lemma no_pattern_accepts_the_empty_name :
  forallb (fun p => negb (pattern_matches p "")) name_patterns = true.
Proof. vm_compute. reflexivity. Qed.

(** X4: the empty name is accepted by no entry of the table, so its
    resolution makes one catalog lookup, the one of the BLE filters: the
    first BLE capable descriptor whose filter accepts the empty name, the
    Unsupported status when there is none, and the status of the iterator
    when it cannot be created. *)
Theorem find_descriptor_by_name_empty_name env st :
  let rc := env_dc_descriptor_iterator env (trace st) in
  let result := find_descriptor_by_name env "" st in
  (forall p, In p name_patterns -> pattern_matches p "" = false)
  /\ trace (snd result) = trace st ++ [E_dc_descriptor_iterator]
  /\ descriptor_of (fst result)
     = if is_success rc then
         match dc_iterator_find (ble_filter_accepts "") (env_catalog env) with
         | Some d => (DC_STATUS_SUCCESS, Some d)
         | None => (DC_STATUS_UNSUPPORTED, None)
         end
       else (rc, None).
Proof.
  cbv zeta. split.
  - intros p Hp. pose proof no_pattern_accepts_the_empty_name as H.
    rewrite forallb_forall in H. apply negb_true_iff. now apply H.
  - unfold find_descriptor_by_name.
    rewrite <- (app_nil_r name_patterns).
    rewrite scan_name_patterns_skip by exact no_pattern_accepts_the_empty_name.
    cbn [scan_name_patterns]. unfold dc_descriptor_iterator. run_monad.
    destruct (is_success _); cbn [negb];
      [destruct (dc_iterator_find _ _)|]; run_monad; auto.
Qed.

Lemma find_descriptor_by_name_empty_name_witness :
  pattern_matches (NamePattern "G2" "Scubapro" "G2" MATCH_EXACT) "" = false.
Proof.
  destruct (find_descriptor_by_name_empty_name (env_success catalog_full)
              initial_state) as [H _].
  apply H. apply list_elem_of_In. apply (bool_decide_unpack _). vm_compute. exact I.
Defined.

Lemma string_app_nil_r (s : string) : (s ++ "")%string = s.
Proof.
  induction s as [|c s IH]; [reflexivity|].
  change (String c s ++ "")%string with (String c (s ++ ""))%string.
  now rewrite IH.
Qed.

(** X5: an entry in Prefix mode accepts exactly the names that start with
    its key. Every name it accepts is accepted by the same entry in Contains
    mode, and not the other way round: the key behind a character other
    than its first one is accepted in Contains mode only. *)
Theorem prefix_mode_accepts_less (key vendor product name : string) :
  (pattern_matches (NamePattern key vendor product MATCH_PREFIX) name = true
   <-> starts_with key name)
  /\ (pattern_matches (NamePattern key vendor product MATCH_PREFIX) name = true
      -> pattern_matches (NamePattern key vendor product MATCH_CONTAINS) name
         = true)
  /\ (forall (c k : ascii) (rest : string),
      key = String k rest -> c <> k ->
      pattern_matches (NamePattern key vendor product MATCH_PREFIX)
        (String c key) = false
      /\ pattern_matches (NamePattern key vendor product MATCH_CONTAINS)
           (String c key) = true).
Proof.
  assert (forall n,
            pattern_matches (NamePattern key vendor product MATCH_PREFIX) n
            = true <-> starts_with key n) as Hprefix.
  { intros n. unfold pattern_matches; simpl. rewrite Z.eqb_eq.
    apply strncmp_starts_with. }
  split; [apply Hprefix|]. split.
  - intros H. apply Hprefix in H as [post ->].
    unfold pattern_matches; simpl. apply not_null_true, strstr_contains.
    exists "", post. reflexivity.
  - intros c k rest -> Hne. split.
    + apply not_true_is_false. intros H. apply Hprefix in H as [post H].
      change (String k rest ++ post)%string
        with (String k (rest ++ post))%string in H.
      injection H as Hc _. contradiction.
    + unfold pattern_matches; simpl np_match_type; simpl np_prefix.
      apply not_null_true, strstr_contains.
      exists (String c ""), "". now rewrite string_app_nil_r.
Qed.

Lemma prefix_mode_accepts_less_witness :
  pattern_matches (NamePattern "GOA_" "Cressi" "Goa" MATCH_PREFIX) "GOA_0042"
  = true
  /\ pattern_matches (NamePattern "GOA_" "Cressi" "Goa" MATCH_CONTAINS)
       "GOA_0042" = true
  /\ pattern_matches (NamePattern "GOA_" "Cressi" "Goa" MATCH_PREFIX) "xGOA_"
     = false.
Proof.
  destruct (prefix_mode_accepts_less "GOA_" "Cressi" "Goa" "GOA_0042")
    as (Hiff & Himp & Hstrict).
  assert (pattern_matches (NamePattern "GOA_" "Cressi" "Goa" MATCH_PREFIX)
            "GOA_0042" = true) as H.
  { apply Hiff. exists "0042". reflexivity. }
  split; [exact H|]. split; [exact (Himp H)|].
  apply (Hstrict "x"%char "G"%char "OA_" eq_refl). discriminate.
Defined.

(** ** Family and model from a name *)

Lemma delete_insert_fresh (h : gmap loc block) (b : block) :
  delete (fresh (dom h)) (<[fresh (dom h) := b]> h) = h.
Proof. rewrite delete_insert_eq. apply delete_id, fresh_free. Qed.

(** What [get_device_info_from_name] returns and leaves behind. *)
Lemma get_device_info_from_name_cases env name st :
  let result := get_device_info_from_name env name st in
  let found :=
    find_descriptor_by_name env name (entered_get_device_info name st) in
  heap (snd result) = heap st
  /\ fst result = info_of (descriptor_of (fst found))
  /\ match snd (fst result) with
     | Some (family, model) =>
         fst (fst result) = DC_STATUS_SUCCESS
         /\ exists d,
             In d (env_catalog env)
             /\ dc_descriptor_get_type d = family
             /\ dc_descriptor_get_model d = model
     | None => fst (fst result) <> DC_STATUS_SUCCESS
     end.
Proof.
  cbv zeta. unfold get_device_info_from_name. run_monad.
  fold (entered_get_device_info name st).
  pose proof (find_descriptor_by_name_cases env name
                (entered_get_device_info name st)) as H.
  cbv zeta in H.
  destruct (find_descriptor_by_name env name _) as [[rc [p|]] st'];
    cbn [fst snd] in *.
  - destruct H as (-> & Haddr & Hheap & Hin & _).
    unfold info_of, descriptor_of, dc_descriptor_free.
    cbn [is_success negb fst snd fmap option_fmap option_map from_option
         compose].
    run_monad. rewrite Hheap, Haddr.
    cbn [heap entered_get_device_info].
    rewrite delete_insert_fresh. repeat split. eauto.
  - destruct H as [Hrc Hheap]. apply is_success_false in Hrc as Hrc'.
    unfold info_of, descriptor_of. cbn [fst snd]. rewrite Hrc'.
    cbn [negb]. run_monad. repeat split; assumption.
Qed.

(** X6: [get_device_info_from_name] frees the descriptor it looks up: in
    every environment the heap after the call is the heap before it. The
    call returns a family and a model exactly with the Success status, and
    they are the family and the model of the descriptor that
    [find_descriptor_by_name] finds for the name. *)
Theorem get_device_info_from_name_frees_descriptor env name st :
  let result := get_device_info_from_name env name st in
  let found :=
    find_descriptor_by_name env name (entered_get_device_info name st) in
  heap (snd result) = heap st
  /\ fst result = info_of (descriptor_of (fst found))
  /\ match snd (fst result) with
     | Some (family, model) =>
         fst (fst result) = DC_STATUS_SUCCESS
         /\ exists d,
             In d (env_catalog env)
             /\ dc_descriptor_get_type d = family
             /\ dc_descriptor_get_model d = model
     | None => fst (fst result) <> DC_STATUS_SUCCESS
     end.
Proof. apply get_device_info_from_name_cases. Qed.

Lemma get_device_info_from_name_frees_descriptor_witness :
  heap (snd (get_device_info_from_name (env_success catalog_full)
               "Perdix 2 4F" stale_state)) = heap stale_state.
Proof.
  pose proof (get_device_info_from_name_frees_descriptor
                (env_success catalog_full) "Perdix 2 4F" stale_state) as H.
  cbv zeta in H. exact (proj1 H).
Defined.

Lemma find_descriptor_by_model_found env family model st d :
  env_dc_descriptor_iterator env (trace st) = DC_STATUS_SUCCESS ->
  dc_iterator_find (model_is family model) (env_catalog env) = Some d ->
  fst (find_descriptor_by_model env family model st)
  = (DC_STATUS_SUCCESS, Some (Ptr (fresh (dom (heap st))) d)).
Proof.
  intros Hit Hd. unfold find_descriptor_by_model, dc_descriptor_iterator.
  run_monad. rewrite Hit. cbn [is_success negb].
  change (fun d : dc_descriptor_t =>
            (dc_descriptor_get_type d =? family)
            && (dc_descriptor_get_model d =? model))
    with (model_is family model).
  rewrite Hd. reflexivity.
Qed.

(** X7: a family and model that [get_device_info_from_name] returns are
    known to [find_descriptor_by_model]: whenever its iterator is created,
    it finds a descriptor with that family and that model, so that the
    lookup by model of a pair that came from a name does not end in
    Unsupported. *)
Theorem identified_pair_is_found_by_model env name st family model st' :
  snd (fst (get_device_info_from_name env name st)) = Some (family, model) ->
  env_dc_descriptor_iterator env (trace st') = DC_STATUS_SUCCESS ->
  exists p,
    fst (find_descriptor_by_model env family model st')
    = (DC_STATUS_SUCCESS, Some p)
    /\ dc_descriptor_get_type (pointee p) = family
    /\ dc_descriptor_get_model (pointee p) = model.
Proof.
  intros Hinfo Hit.
  destruct (get_device_info_from_name_cases env name st) as (_ & _ & H).
  rewrite Hinfo in H. destruct H as (_ & d & Hin & Hf & Hm).
  destruct (dc_iterator_find_some_of (model_is family model)
              (env_catalog env) d Hin) as [d' Hd'].
  { unfold model_is. rewrite Hf, Hm, !Z.eqb_refl. reflexivity. }
  eexists. split; [eapply find_descriptor_by_model_found; eassumption|].
  apply dc_iterator_find_Some in Hd' as [_ Hd'].
  apply andb_true_iff in Hd' as [Hf' Hm'].
  cbn [pointee]. split; now apply Z.eqb_eq.
Qed.

Lemma identified_pair_is_found_by_model_witness :
  exists p,
    fst (find_descriptor_by_model (env_success catalog_full)
           DC_FAMILY_SHEARWATER_PETREL 13 stale_state)
    = (DC_STATUS_SUCCESS, Some p)
    /\ dc_descriptor_get_model (pointee p) = 13.
Proof.
  destruct (identified_pair_is_found_by_model (env_success catalog_full)
              "Peregrine" initial_state DC_FAMILY_SHEARWATER_PETREL 13
              stale_state) as (p & Hp & _ & Hm).
  - vm_compute. reflexivity.
  - reflexivity.
  - exists p. split; assumption.
Defined.

(** X8: as long as iterators are created, [get_device_info_from_name]
    depends on the name and the catalog only: its status, family and model
    are those of the resolution of the name over the catalog, whatever was
    called before, and a second call returns what the first one did. *)
Theorem get_device_info_from_name_repeatable env name st :
  iterators_succeed env ->
  let first := get_device_info_from_name env name st in
  let second := get_device_info_from_name env name (snd first) in
  fst first = info_of (resolve_by_name (env_catalog env) name)
  /\ fst second = fst first
  /\ heap (snd second) = heap st.
Proof.
  intros Hit. cbv zeta.
  assert (forall s,
            fst (get_device_info_from_name env name s)
            = info_of (resolve_by_name (env_catalog env) name)) as H.
  { intros s.
    destruct (get_device_info_from_name_cases env name s) as (_ & -> & _).
    now rewrite find_descriptor_by_name_spec. }
  split; [apply H|]. split; [now rewrite !H|].
  destruct (get_device_info_from_name_cases env name
              (snd (get_device_info_from_name env name st))) as (-> & _).
  now destruct (get_device_info_from_name_cases env name st) as (-> & _).
Qed.

Lemma get_device_info_from_name_repeatable_witness :
  fst (get_device_info_from_name (env_success catalog_full) "Peregrine"
         stale_state)
  = (DC_STATUS_SUCCESS, Some (DC_FAMILY_SHEARWATER_PETREL, 13)).
Proof.
  pose proof (get_device_info_from_name_repeatable (env_success catalog_full)
                "Peregrine" stale_state (fun _ => eq_refl)) as H.
  cbv zeta in H. rewrite (proj1 H). vm_compute. reflexivity.
Defined.

(** ** The display name *)

(** X9: in every environment, [get_formatted_device_name] returns either
    the null pointer, and then the heap is as it was, or a new buffer that
    holds the vendor, a space and the product of a descriptor of the
    catalog, and then this buffer is all that the call added to the heap:
    the descriptor it looked up is freed on both ways. *)
Theorem get_formatted_device_name_label env name st :
  let result := get_formatted_device_name env name st in
  match fst result with
  | Some label =>
      heap st !! address label = None
      /\ heap (snd result) = <[address label := B_bytes]> (heap st)
      /\ exists d vendor product,
          In d (env_catalog env)
          /\ dc_descriptor_get_vendor d = Some vendor
          /\ dc_descriptor_get_product d = Some product
          /\ pointee label = (vendor ++ " " ++ product)%string
          /\ strlen (pointee label)
             = (strlen vendor + strlen product + 1)%nat
  | None => heap (snd result) = heap st
  end.
Proof.
  cbv zeta. unfold get_formatted_device_name. run_monad.
  pose proof (find_descriptor_by_name_cases env name st) as H.
  cbv zeta in H.
  destruct (find_descriptor_by_name env name st) as [[rc [p|]] st'];
    cbn [fst snd] in *.
  - destruct H as (-> & Haddr & Hheap & Hin & _).
    cbn [is_success negb mbind option_bind compose].
    destruct p as [l d]. cbn [address pointee] in *. subst l.
    unfold dc_descriptor_free, malloc. cbn [address].
    destruct (dc_descriptor_get_vendor d) as [vendor|] eqn:Hv;
      [destruct (dc_descriptor_get_product d) as [product|] eqn:Hp|];
      run_monad.
    + destruct (env_malloc env (trace st')); run_monad.
      * rewrite Hheap. name_fresh. cbn [address pointee].
        split; [assumption|]. split; [heap_equal|].
        exists d, vendor, product. repeat split; try assumption.
        unfold strlen. rewrite !string_length_app. simpl. lia.
      * rewrite Hheap. apply delete_insert_fresh.
    + rewrite Hheap. apply delete_insert_fresh.
    + rewrite Hheap. apply delete_insert_fresh.
  - destruct H as [Hrc Hheap]. apply is_success_false in Hrc.
    rewrite Hrc. cbn [negb]. run_monad. exact Hheap.
Qed.

Lemma get_formatted_device_name_label_witness :
  exists label,
    fst (get_formatted_device_name (env_success catalog_full) "Peregrine"
           initial_state) = Some label
    /\ pointee label = "Shearwater Peregrine TX".
Proof.
  pose proof (get_formatted_device_name_label (env_success catalog_full)
                "Peregrine" initial_state) as H.
  cbv zeta in H.
  destruct (fst (get_formatted_device_name (env_success catalog_full)
                   "Peregrine" initial_state)) as [label|] eqn:E.
  - exists label. split; [reflexivity|].
    vm_compute in E. injection E as <-. reflexivity.
  - vm_compute in E. discriminate E.
Defined.

(** ** The parser *)

Section Parser.

Context (env : environment).
Context (dc_parser_new2 :
           option loc -> option (pointer dc_descriptor_t) -> list Z -> Z ->
           M (dc_status_t * option loc)).

(** X10: [create_parser_for_device] does not reach the creation of the
    parser when the lookup of the descriptor fails: it returns the status
    of the lookup, no parser, and the heap as it was. When the lookup
    succeeds it returns the status and the parser of [dc_parser_new2], and
    its last call frees the descriptor, which is not live afterwards,
    whether the parser was created or not. *)
Theorem create_parser_for_device_frees_descriptor
    context family model data size st :
  let found := find_descriptor_by_model env family model st in
  let result :=
    create_parser_for_device env dc_parser_new2 context family model data
      size st in
  match fst found with
  | (rc, Some d) =>
      let made := dc_parser_new2 context (Some d) data size (snd found) in
      rc = DC_STATUS_SUCCESS
      /\ fst result = fst made
      /\ trace (snd result)
         = trace (snd made) ++ [E_dc_descriptor_free (address d)]
      /\ heap (snd result) !! address d = None
  | (rc, None) =>
      rc <> DC_STATUS_SUCCESS
      /\ result = ((rc, None), snd found)
      /\ heap (snd result) = heap st
  end.
Proof.
  cbv zeta. unfold create_parser_for_device. run_monad.
  pose proof (find_descriptor_by_model_cases env family
                model st) as H.
  destruct (find_descriptor_by_model env family model st)
    as [[rc [d|]] st']; cbn [fst snd] in *.
  - destruct H as [-> _]. cbn [is_success negb].
    destruct (dc_parser_new2 context (Some d) data size st')
      as [[rc2 parser] st2].
    unfold dc_descriptor_free. run_monad.
    repeat split. apply lookup_delete_eq.
  - destruct H as [Hrc Hheap]. apply is_success_false in Hrc as Hrc'.
    rewrite Hrc'. cbn [negb]. run_monad. auto.
Qed.

End Parser.

(** ** The BLE stream *)

(** The two ways out of [ble_packet_open]. *)
Lemma ble_packet_open_cases env context devaddr st :
  let result := ble_packet_open env context devaddr st in
  match fst result with
  | (rc, Some s) =>
      rc = DC_STATUS_SUCCESS
      /\ pointee s
         = BleStream context DC_TRANSPORT_BLE (ble_object (pointee s))
      /\ address s <> ble_object (pointee s)
      /\ heap st !! address s = None
      /\ heap st !! ble_object (pointee s) = None
      /\ heap (snd result)
         = <[address s := B_ble_stream]>
             (<[ble_object (pointee s) := B_ble_object]> (heap st))
  | (rc, None) =>
      (rc = DC_STATUS_NOMEMORY \/ rc = DC_STATUS_IO)
      /\ heap (snd result) = heap st
  end.
Proof.
  cbv zeta.
  unfold ble_packet_open, ble_iostream_create, initializeBLEManager,
    createBLEObject, connectToBLEDevice, freeBLEObject, malloc.
  run_monad.
  destruct (env_createBLEObject env _); run_monad; [|auto].
  destruct (env_connectToBLEDevice env _ _); cbn [negb]; run_monad.
  - destruct (env_malloc env _); run_monad; cbn [is_success negb];
      run_monad; cbn [address pointee ble_object]; name_fresh.
    + repeat split; try assumption. congruence.
    + split; [auto | heap_equal].
  - name_fresh. split; [auto | heap_equal].
Qed.

(** X11: [ble_packet_open] either returns a stream with the Success status,
    and then it has acquired exactly two blocks that were free before, the
    BLE object and the stream that refers to it, tagged as a BLE transport
    of the given context; or it returns no stream with the status NoMemory
    or IO, and then the heap is as it was: the BLE object made on the way
    has been freed. *)
Theorem ble_packet_open_acquires_or_leaves env context devaddr st :
  let result := ble_packet_open env context devaddr st in
  match fst result with
  | (rc, Some s) =>
      rc = DC_STATUS_SUCCESS
      /\ pointee s
         = BleStream context DC_TRANSPORT_BLE (ble_object (pointee s))
      /\ address s <> ble_object (pointee s)
      /\ heap st !! address s = None
      /\ heap st !! ble_object (pointee s) = None
      /\ heap (snd result)
         = <[address s := B_ble_stream]>
             (<[ble_object (pointee s) := B_ble_object]> (heap st))
  | (rc, None) =>
      (rc = DC_STATUS_NOMEMORY \/ rc = DC_STATUS_IO)
      /\ heap (snd result) = heap st
  end.
Proof. apply ble_packet_open_cases. Qed.


(** What [dc_iostream_close] does to a stream, in any state. *)
Lemma dc_iostream_close_run env s st :
  dc_iostream_close env s st
  = (env_ble_close env (trace st ++ [E_dc_iostream_close (address s)]),
     State (delete (address s) (delete (ble_object (pointee s)) (heap st)))
       (trace st
        ++ [E_dc_iostream_close (address s);
            E_ble_close (ble_object (pointee s));
            E_freeBLEObject (ble_object (pointee s));
            E_free (address s)])).
Proof.
  unfold dc_iostream_close, ble_stream_close, ble_close, freeBLEObject, free.
  run_monad. rewrite <- !app_assoc. reflexivity.
Qed.

(** X12: closing a stream that [ble_packet_open] has just opened gives the
    heap back as it was before the open. The close calls [ble_close], then
    [freeBLEObject], then [free] on the stream, and it releases both blocks
    also when [ble_close] reports a failure, which is the status it
    returns. *)
Theorem ble_packet_open_close_round_trip env context devaddr st s :
  let opened := ble_packet_open env context devaddr st in
  let closing := dc_iostream_close env s (snd opened) in
  snd (fst opened) = Some s ->
  heap (snd closing) = heap st
  /\ trace (snd closing)
     = trace (snd opened)
       ++ [E_dc_iostream_close (address s);
           E_ble_close (ble_object (pointee s));
           E_freeBLEObject (ble_object (pointee s));
           E_free (address s)]
  /\ fst closing
     = env_ble_close env
         (trace (snd opened) ++ [E_dc_iostream_close (address s)]).
Proof.
  cbv zeta. intros Hs. rewrite dc_iostream_close_run. cbn [fst snd heap trace].
  split; [|split; reflexivity].
  pose proof (ble_packet_open_cases env context devaddr st) as H.
  destruct (ble_packet_open env context devaddr st) as [[rc o] st'].
  cbn [fst snd] in *. subst o.
  destruct H as (_ & _ & Hne & Hs & Hio & ->). heap_equal.
Qed.

Lemma ble_packet_open_close_round_trip_witness :
  exists s,
    let opened :=
      ble_packet_open (env_success catalog_full) None "6F1A-22C0"
        stale_state in
    snd (fst opened) = Some s
    /\ heap (snd (dc_iostream_close (env_success catalog_full) s
                    (snd opened)))
       = heap stale_state.
Proof.
  destruct (snd (fst (ble_packet_open (env_success catalog_full) None
                        "6F1A-22C0" stale_state))) as [s|] eqn:E;
    [|vm_compute in E; discriminate E].
  exists s. cbv zeta. split; [exact E|].
  exact (proj1 (ble_packet_open_close_round_trip
                  (env_success catalog_full) None "6F1A-22C0" stale_state s
                  E)).
Defined.

(** ** A session that opened *)

(** X13: when [open_ble_device] succeeds the session holds a context, a
    BLE stream of that context, a device handle and a descriptor of the
    catalog with the family and the model asked for; their blocks are live;
    no fingerprint is set and no event is recorded yet; the model label,
    when there is one, is a live block that holds the vendor, a space and
    the product of the descriptor; and the device has been subscribed to
    the device-info, progress and clock events (mask 14). *)
Theorem open_ble_device_success_session env d devaddr family model st :
  let result := open_ble_device env (Some d) (Some devaddr) family model st in
  fst (fst result) = DC_STATUS_SUCCESS ->
  exists data context stream device descriptor,
    snd (fst result) = Some data
    /\ dd_context data = Some context
    /\ dd_iostream data = Some stream
    /\ dd_device data = Some device
    /\ dd_descriptor data = Some descriptor
    /\ pointee stream
       = BleStream (Some context) DC_TRANSPORT_BLE (ble_object (pointee stream))
    /\ In (pointee descriptor) (env_catalog env)
    /\ dc_descriptor_get_type (pointee descriptor) = family
    /\ dc_descriptor_get_model (pointee descriptor) = model
    /\ heap (snd result) !! context = Some B_context
    /\ heap (snd result) !! address stream = Some B_ble_stream
    /\ heap (snd result) !! ble_object (pointee stream) = Some B_ble_object
    /\ heap (snd result) !! device = Some B_device
    /\ heap (snd result) !! address descriptor = Some B_descriptor
    /\ dd_fingerprint data = None
    /\ dd_lookup_fingerprint data = None
    /\ dd_have_devinfo data = 0
    /\ dd_have_progress data = 0
    /\ match dd_model data with
       | Some m =>
           heap (snd result) !! address m = Some B_bytes
           /\ exists vendor product,
               dc_descriptor_get_vendor (pointee descriptor) = Some vendor
               /\ dc_descriptor_get_product (pointee descriptor)
                  = Some product
               /\ pointee m = (vendor ++ " " ++ product)%string
       | None => True
       end
    /\ In (E_dc_device_set_events device 14) (trace (snd result)).
Proof.
  cbv zeta. intros Hrc.
  destruct (open_ble_device_success_cases env d devaddr family model st Hrc)
    as (context & descriptor & io & stream & device & label & Hdata & Hin
        & Hmodel & Hnodup & Hfree & Hlabel & Hheap & Hevents).
  exists (opened_session context descriptor io stream device label), context,
    (Ptr stream (BleStream (Some context) DC_TRANSPORT_BLE io)), device,
    descriptor.
  unfold model_is in Hmodel. apply andb_true_iff in Hmodel as [Hf Hm].
  apply Z.eqb_eq in Hf, Hm.
  apply NoDup_five in Hnodup
    as (N1 & N2 & N3 & N4 & N5 & N6 & N7 & N8 & N9 & N10).
  assert (forall l b,
             heap_of_session context descriptor io stream device (heap st)
             !! l = Some b ->
             heap (snd (open_ble_device env (Some d) (Some devaddr) family
                          model st)) !! l = Some b) as Hlive.
  { intros l b Hl. rewrite Hheap. destruct label as [m|]; [|exact Hl].
    cbn [with_label]. destruct Hlabel as [Hm' _].
    rewrite lookup_insert_ne; [exact Hl|].
    intros E. rewrite E in Hm'. congruence. }
  repeat split; try assumption; try reflexivity.
  - apply Hlive. unfold heap_of_session.
    rewrite !lookup_insert_ne by congruence.
    apply lookup_insert_eq.
  - apply Hlive. unfold heap_of_session. cbn [address].
    rewrite !lookup_insert_ne by congruence.
    apply lookup_insert_eq.
  - apply Hlive. unfold heap_of_session. cbn [address pointee ble_object].
    rewrite !lookup_insert_ne by congruence.
    apply lookup_insert_eq.
  - apply Hlive. unfold heap_of_session. apply lookup_insert_eq.
  - apply Hlive. unfold heap_of_session.
    rewrite !lookup_insert_ne by congruence.
    apply lookup_insert_eq.
  - destruct label as [m|]; cbn [opened_session dd_model set_model]; [|exact I].
    destruct Hlabel as [_ Hlabel]. split; [|exact Hlabel].
    rewrite Hheap. apply lookup_insert_eq.
Qed.

Lemma open_ble_device_success_session_witness :
  exists data,
    snd (fst (open_ble_device (env_success catalog_full)
                (Some stale_session) (Some "6F1A-22C0")
                DC_FAMILY_SHEARWATER_PETREL 13 stale_state)) = Some data
    /\ dd_fingerprint data = None.
Proof.
  destruct (open_ble_device_success_session (env_success catalog_full)
              stale_session "6F1A-22C0" DC_FAMILY_SHEARWATER_PETREL 13
              stale_state eq_refl)
    as (data & context & stream & device & descriptor & Hdata & _ & _ & _ & _
        & _ & _ & _ & _ & _ & _ & _ & _ & _ & Hfp & _).
  exists data. split; [exact Hdata | exact Hfp].
Defined.

(** ** Closing *)

(** One close, as a function of the session. *)
Lemma close_device_data_run env data st :
  close_device_data env (Some data) st
  = (Some (closed data),
     State (delete_all (released_blocks data) (heap st))
       (trace st ++ release_trace data)).
Proof.
  unfold close_device_data, release_trace, released_blocks, closed.
  destruct st as [h t].
  destruct data as [dev ctx ios desc hd di hp pr hc cl fp fs fc lf mo fd fv].
  unfold dc_iostream_close, ble_stream_close, dc_device_close, ble_close,
    freeBLEObject, dc_context_free, free.
  destruct fp as [fp|], mo as [mo|], dev as [dev|], ios as [ios|],
    ctx as [ctx|]; run_monad; cbn;
    rewrite <- ?app_assoc, ?app_nil_r; reflexivity.
Qed.

(** X14: closing the session of a successful [open_ble_device] releases
    everything the open acquired but the descriptor: the heap is the one
    from before the open with the descriptor block added, and the closed
    session no longer points to it. *)
Theorem open_then_close_leaves_the_descriptor
    env d devaddr family model st :
  let opened := open_ble_device env (Some d) (Some devaddr) family model st in
  let closing := close_device_data env (snd (fst opened)) (snd opened) in
  fst (fst opened) = DC_STATUS_SUCCESS ->
  exists data descriptor,
    snd (fst opened) = Some data
    /\ dd_descriptor data = Some descriptor
    /\ heap st !! address descriptor = None
    /\ heap (snd closing)
       = <[address descriptor := B_descriptor]> (heap st)
    /\ fst closing = Some (closed data)
    /\ dd_descriptor (closed data) = None.
Proof.
  cbv zeta. intros Hrc.
  destruct (open_ble_device_success_cases env d devaddr family model st Hrc)
    as (context & descriptor & io & stream & device & label & Hdata & _
        & _ & Hnodup & Hfree & Hlabel & Hheap & _).
  exists (opened_session context descriptor io stream device label),
    descriptor.
  rewrite Hdata, close_device_data_run. cbn [fst snd heap].
  apply NoDup_five in Hnodup
    as (N1 & N2 & N3 & N4 & N5 & N6 & N7 & N8 & N9 & N10).
  apply Forall_cons in Hfree as [F1 Hfree].
  apply Forall_cons in Hfree as [F2 Hfree].
  apply Forall_cons in Hfree as [F3 Hfree].
  apply Forall_cons in Hfree as [F4 Hfree].
  apply Forall_cons in Hfree as [F5 _].
  repeat split; try reflexivity; try assumption.
  rewrite Hheap. unfold heap_of_session.
  destruct label as [m|];
    cbn [label_of with_label opened_session released_blocks dd_fingerprint
         dd_model dd_device dd_iostream dd_context set_model set_descriptor
         set_device set_iostream set_context device_data_zero from_option
         app address pointee ble_object delete_all foldl] in *.
  - destruct Hlabel as [Hm _].
    unfold heap_of_session in Hm.
    repeat (apply lookup_insert_None in Hm as [Hm ?]).
    heap_equal.
  - heap_equal.
Qed.

Lemma open_then_close_leaves_the_descriptor_witness :
  let opened :=
    open_ble_device (env_success catalog_full) (Some device_data_zero)
      (Some "6F1A-22C0") DC_FAMILY_SHEARWATER_PETREL 13 initial_state in
  size (heap (snd (close_device_data (env_success catalog_full)
                     (snd (fst opened)) (snd opened)))) = 1%nat.
Proof.
  cbv zeta.
  destruct (open_then_close_leaves_the_descriptor (env_success catalog_full)
              device_data_zero "6F1A-22C0" DC_FAMILY_SHEARWATER_PETREL 13
              initial_state eq_refl)
    as (data & descriptor & _ & _ & _ & Hheap & _).
  rewrite Hheap. cbn [initial_state heap]. rewrite insert_empty.
  apply map_size_singleton.
Defined.

(** X15: [close_device_data] is idempotent: closing a session that has
    been closed makes no call, releases nothing and leaves the session as
    it is. *)
Theorem close_device_data_idempotent env data st :
  let once := close_device_data env data st in
  close_device_data env (fst once) (snd once) = once.
Proof.
  cbv zeta. destruct data as [data|]; [|reflexivity].
  rewrite close_device_data_run. cbn [fst snd].
  rewrite close_device_data_run.
  destruct data as [dev ctx ios desc hd di hp pr hc cl fp fs fc lf mo fd fv].
  destruct fp; cbn; rewrite app_nil_r; reflexivity.
Qed.

(** ** A model that the catalog does not have *)

(** X16: when no descriptor of the catalog has the family and the model
    asked for, [open_ble_device] does not succeed, leaves the heap as it
    was (the context it made is freed) and makes no call to the BLE
    transport or to a device; when the context and the iterator were
    created, its status is Unsupported. *)
Theorem open_ble_device_unknown_model env d devaddr family model st :
  (forall x, In x (env_catalog env) -> model_is family model x = false) ->
  let result := open_ble_device env (Some d) (Some devaddr) family model st in
  let entered :=
    trace st ++ [E_enter_open_ble_device (Some devaddr) family model] in
  fst (fst result) <> DC_STATUS_SUCCESS
  /\ heap (snd result) = heap st
  /\ (exists new,
        trace (snd result) = trace st ++ new
        /\ forallb (fun e => negb (is_transport_call e)) new = true)
  /\ (env_dc_context_new env entered = DC_STATUS_SUCCESS ->
      env_dc_descriptor_iterator env (entered ++ [E_dc_context_new])
      = DC_STATUS_SUCCESS ->
      fst (fst result) = DC_STATUS_UNSUPPORTED).
Proof.
  intros Hnone. cbv zeta.
  assert (dc_iterator_find
            (fun d => (dc_descriptor_get_type d =? family)
                      && (dc_descriptor_get_model d =? model))
            (env_catalog env) = None) as Hfind.
  { destruct (dc_iterator_find _ _) as [x|] eqn:E; [|reflexivity].
    apply dc_iterator_find_Some in E as [Hin Hx].
    apply Hnone in Hin. unfold model_is in Hin. congruence. }
  unfold_unit; run_monad; simpl_session;
    repeat (break_path; try congruence; run_monad; simpl_session).
  all: name_fresh.
  all: repeat match goal with
       | H : is_success _ = false |- _ => apply is_success_false in H
       end.
  all: split; [first [discriminate | assumption]|].
  all: split; [first [reflexivity | heap_equal]|].
  all: split; [rewrite <- ?app_assoc; eexists; split; reflexivity|].
  all: intros; first [reflexivity | congruence].
Qed.

Lemma open_ble_device_unknown_model_witness :
  fst (fst (open_ble_device (env_success catalog_full) (Some stale_session)
              (Some "6F1A-22C0") DC_FAMILY_SHEARWATER_PETREL 99
              stale_state))
  = DC_STATUS_UNSUPPORTED.
Proof.
  assert (forall x, In x (env_catalog (env_success catalog_full)) ->
                    model_is DC_FAMILY_SHEARWATER_PETREL 99 x = false) as H.
  { intros x Hx. cbn in Hx.
    repeat (destruct Hx as [<- | Hx]; [reflexivity|]). destruct Hx. }
  pose proof (open_ble_device_unknown_model (env_success catalog_full)
                stale_session "6F1A-22C0" DC_FAMILY_SHEARWATER_PETREL 99
                stale_state H) as (_ & _ & _ & Hrc).
  apply Hrc; reflexivity.
Defined.

(** ** The session block of [open_ble_device_with_identification] *)

Lemma open_ble_device_keeps_heap_any env data devaddr family model st :
  heap st
  ⊆ heap (snd (open_ble_device env data devaddr family model st)).
Proof.
  destruct data as [d|], devaddr as [devaddr|];
    first [ apply open_ble_device_keeps_heap | reflexivity ].
Qed.

Lemma get_device_info_from_name_heap env name st :
  heap (snd (get_device_info_from_name env name st)) = heap st.
Proof.
  pose proof (get_device_info_from_name_cases env name st) as H.
  cbv zeta in H. exact (proj1 H).
Qed.

Lemma delete_fresh_subseteq (h h' : gmap loc block) (b : block) :
  <[fresh (dom h) := b]> h ⊆ h' -> h ⊆ delete (fresh (dom h)) h'.
Proof.
  intros H. apply map_subseteq_spec. intros i x Hi.
  assert (i <> fresh (dom h)) as Hne.
  { intros ->. rewrite fresh_free in Hi. discriminate. }
  rewrite lookup_delete_ne by congruence.
  apply (lookup_weaken _ _ _ _ (eq_trans (lookup_insert_ne _ _ _ _ (not_eq_sym Hne)) Hi) H).
Qed.

(** X17: [open_ble_device_with_identification] returns a session exactly
    when it returns Success. The session it returns is the block it
    allocated on entry, and it is live; when it fails, the block allocated
    on entry has been freed, by its last call. In both cases every block
    that was live before the call still is. *)
Theorem open_ble_device_with_identification_session
    env name devaddr stored_family stored_model st :
  let result :=
    open_ble_device_with_identification env name devaddr stored_family
      stored_model st in
  let p := fresh (dom (heap st)) in
  heap st ⊆ heap (snd result)
  /\ match fst result with
     | (rc, Some session) =>
         rc = DC_STATUS_SUCCESS
         /\ address session = p
         /\ heap (snd result) !! p = Some B_device_data
     | (rc, None) =>
         rc <> DC_STATUS_SUCCESS
         /\ heap (snd result) !! p = None
         /\ (env_malloc env (trace st) = true ->
             exists before, trace (snd result) = before ++ [E_free p])
     end.
Proof.
  cbv zeta.
  unfold open_ble_device_with_identification, calloc, free. run_monad.
  destruct (env_malloc env (trace st)) eqn:Hmalloc; run_monad;
    [|split; [reflexivity|];
      split; [discriminate|]; split; [apply fresh_free | discriminate]].
  destruct (negb (stored_family =? DC_FAMILY_NULL)
            && negb (stored_model =? 0));
    repeat first
      [ match goal with
        | |- context [is_success ?rc] => destruct (is_success rc) eqn:?
        | |- context [default (DC_FAMILY_NULL, 0) ?i] =>
            destruct (default (DC_FAMILY_NULL, 0) i)
        | |- context [get_device_info_from_name ?e ?n ?s] =>
            let K := fresh "K" in
            pose proof (get_device_info_from_name_heap e n s) as K;
            destruct (get_device_info_from_name e n s) as [[? ?] ?]
        | |- context [open_ble_device ?e ?d ?a ?f ?m ?s] =>
            let K := fresh "K" in
            pose proof (open_ble_device_keeps_heap_any e d a f m s) as K;
            destruct (open_ble_device e d a f m s) as [[? ?] ?]
        end; cbn [negb fst snd heap trace] in *; run_monad ].
  all: cbn [fst snd heap trace address] in *.
  all: repeat match goal with
       | H : heap _ = _ |- _ => rewrite H in *; clear H
       end.
  all: repeat match goal with
       | H : is_success _ = false |- _ => apply is_success_false in H
       end.
  all: match goal with
       | |- _ ⊆ delete _ ?h /\ _ =>
           assert (<[fresh (dom (heap st)) := B_device_data]> (heap st) ⊆ h)
             as Hchain
             by (repeat (etransitivity; [eassumption|]); reflexivity)
       | |- _ ⊆ ?h /\ _ =>
           assert (<[fresh (dom (heap st)) := B_device_data]> (heap st) ⊆ h)
             as Hchain
             by (repeat (etransitivity; [eassumption|]); reflexivity)
       end.
  all: split;
    [first [ eapply delete_fresh_subseteq, Hchain
           | etransitivity;
             [apply insert_subseteq, fresh_free | exact Hchain] ]|].
  all: split; [first [reflexivity | assumption]|].
  all: split; [first [reflexivity | apply lookup_delete_eq]|].
  all: first [ intros _; eexists; reflexivity
             | apply (lookup_weaken _ _ _ _ (lookup_insert_eq _ _ _) Hchain) ].
Qed.


(** ** The key of a fingerprint *)

(** X18: the serial strings of two device-info events are the same exactly
    when the serials are the same [unsigned int]: different devices of a
    model never share a fingerprint key. *)
Theorem snprintf_08x_same_key (a b : Z) :
  snprintf_08x 16 a = snprintf_08x 16 b <-> to_uint a = to_uint b.
Proof.
  split; intros H.
  - destruct (snprintf_08x_spec a) as (_ & _ & <-).
    destruct (snprintf_08x_spec b) as (_ & _ & <-).
    now rewrite H.
  - unfold snprintf_08x, format_08x. now rewrite H.
Qed.

(** ** What an event never does *)

(** X19: whatever the event and whatever the lookup function answers, the
    callback keeps the handles of the session (device, context, stream,
    descriptor, model label, lookup function and its context) and the clock
    fields, frees nothing and calls nothing that releases a block: every
    block that was live stays live, also the buffer of a fingerprint that
    it replaces. *)
Theorem ble_device_event_cb_keeps_handles env device event devdata st :
  let result := ble_device_event_cb env device event (Some devdata) st in
  exists data new,
    fst result = Some data
    /\ dd_device data = dd_device devdata
    /\ dd_context data = dd_context devdata
    /\ dd_iostream data = dd_iostream devdata
    /\ dd_descriptor data = dd_descriptor devdata
    /\ dd_model data = dd_model devdata
    /\ dd_lookup_fingerprint data = dd_lookup_fingerprint devdata
    /\ dd_fingerprint_context data = dd_fingerprint_context devdata
    /\ dd_have_clock data = dd_have_clock devdata
    /\ dd_clock data = dd_clock devdata
    /\ heap st ⊆ heap (snd result)
    /\ trace (snd result) = trace st ++ new
    /\ Forall (fun e => released_by e = None) new.
Proof.
  cbv zeta. unfold ble_device_event_cb.
  destruct event as [|progress|devinfo|clock|vendor];
    try (eexists _, []; rewrite app_nil_r;
         repeat split; try reflexivity; constructor).
  cbn [dd_lookup_fingerprint dd_model set_devinfo].
  destruct (dd_lookup_fingerprint devdata) as [lookup|] eqn:Hlookup;
    [destruct (dd_model devdata) as [model|] eqn:Hmodel|];
    try (eexists _, []; rewrite app_nil_r;
         repeat split; try reflexivity; try assumption; constructor).
  unfold call_lookup_fingerprint, dc_device_set_fingerprint. run_monad.
  cbn [dd_fingerprint_context].
  destruct (lookup _ _ _ _) as [[bytes|] size]; run_monad.
  - destruct (0 <? to_size_t size); run_monad;
      eexists _, _; (split; [reflexivity|]);
      cbn [dd_device dd_context dd_iostream dd_descriptor dd_model
           dd_lookup_fingerprint dd_fingerprint_context dd_have_clock
           dd_clock set_fingerprint];
      rewrite <- ?app_assoc;
      repeat split; try reflexivity; try assumption;
      try (apply insert_subseteq, fresh_free);
      repeat constructor.
  - eexists _, _. split; [reflexivity|].
    cbn [dd_device dd_context dd_iostream dd_descriptor dd_model
         dd_lookup_fingerprint dd_fingerprint_context dd_have_clock dd_clock].
    repeat split; try reflexivity; try assumption. repeat constructor.
Qed.

(** ** The byte-array helpers of BLEBridge.h *)

Lemma lor_shiftl_add (a b n : Z) :
  0 <= n -> 0 <= a < 2 ^ n -> Z.lor a (Z.shiftl b n) = a + b * 2 ^ n.
Proof.
  intros Hn Ha.
  assert (Z.land a (Z.shiftl b n) = 0) as Hland.
  { apply Z.bits_inj'. intros i Hi.
    rewrite Z.land_spec, Z.bits_0.
    destruct (Z.lt_ge_cases i n) as [Hlt|Hge].
    - rewrite Z.shiftl_spec_low by assumption. apply andb_false_r.
    - assert (Z.testbit a i = false) as ->; [|reflexivity].
      destruct (Z.eq_dec a 0) as [->|Hne]; [apply Z.bits_0|].
      apply Z.bits_above_log2; [lia|].
      assert (Z.log2 a < n) by (apply Z.log2_lt_pow2; lia). lia. }
  rewrite <- Z.lxor_lor by exact Hland.
  rewrite <- Z.add_nocarry_lxor by exact Hland.
  now rewrite Z.shiftl_mul_pow2.
Qed.

(** The promoted byte shifted in an [int]: only the shift by 24 can reach
    the sign bit. *)
Lemma to_int_shiftl (b n : Z) :
  is_byte b -> 0 <= n <= 24 ->
  to_int (Z.shiftl b n)
  = Z.shiftl (if 2 ^ 31 <=? b * 2 ^ n then b - 256 else b) n.
Proof.
  unfold is_byte, to_int. intros Hb Hn. rewrite !Z.shiftl_mul_pow2 by lia.
  assert (0 < 2 ^ n <= 2 ^ 24) as Hp.
  { split; [apply Z.pow_pos_nonneg; lia|].
    apply Z.pow_le_mono_r; lia. }
  change (2 ^ 24) with 16777216 in Hp.
  change (2 ^ 31) with 2147483648. change (2 ^ 32) with 4294967296.
  destruct (Z.leb_spec 2147483648 (b * 2 ^ n)) as [Hge|Hlt].
  - assert (n = 24) as -> by (destruct (Z.eq_dec n 24); [assumption | exfalso;
      assert (2 ^ n <= 2 ^ 23) by (apply Z.pow_le_mono_r; lia);
      change (2 ^ 23) with 8388608 in *; nia]).
    change (2 ^ 24) with 16777216 in *.
    Z.div_mod_to_equations. lia.
  - rewrite Z.mod_small; nia.
Qed.

Lemma to_int_shiftl_low (b n : Z) :
  is_byte b -> 0 <= n <= 16 -> to_int (Z.shiftl b n) = Z.shiftl b n.
Proof.
  intros Hb Hn. rewrite to_int_shiftl by (unfold is_byte in *; lia).
  destruct (Z.leb_spec (2 ^ 31) (b * 2 ^ n)) as [Hge|]; [|reflexivity].
  exfalso. unfold is_byte in Hb.
  assert (0 < 2 ^ n <= 2 ^ 16) as Hp.
  { split; [apply Z.pow_pos_nonneg; lia|].
    apply Z.pow_le_mono_r; lia. }
  change (2 ^ 16) with 65536 in Hp. change (2 ^ 31) with 2147483648 in Hge.
  nia.
Qed.

(** X20: on two bytes, [array_uint16_le] and [array_uint16_be] are the
    numbers the bytes denote in the two byte orders; neither loses a bit,
    so the bytes can be read back from the value, and one is the other on
    the swapped bytes. *)
Theorem array_uint16_value (array : list Z) :
  Forall is_byte array -> (2 <= length array)%nat ->
  let b0 := at_index array 0 in
  let b1 := at_index array 1 in
  array_uint16_le array = b0 + 256 * b1
  /\ array_uint16_be array = 256 * b0 + b1
  /\ array_uint16_le array mod 256 = b0
  /\ array_uint16_le array / 256 = b1
  /\ array_uint16_be [b1; b0] = array_uint16_le array.
Proof.
  intros Hbytes Hlen.
  destruct array as [|b0 [|b1 rest]]; simpl in Hlen; try lia.
  apply Forall_cons in Hbytes as [H0 Hbytes].
  apply Forall_cons in Hbytes as [H1 _].
  cbv zeta. unfold array_uint16_le, array_uint16_be, at_index, to_uint16.
  cbn [nth].
  rewrite !to_int_shiftl_low by (assumption || lia).
  rewrite (Z.lor_comm (Z.shiftl b0 8)), (Z.lor_comm (Z.shiftl b1 8) b0).
  unfold is_byte in *.
  rewrite !lor_shiftl_add by lia.
  change (2 ^ 8) with 256. change (2 ^ 16) with 65536.
  rewrite !Z.mod_small by lia.
  repeat split; try lia.
  - Z.div_mod_to_equations. lia.
  - Z.div_mod_to_equations. nia.
Qed.

Lemma array_uint16_value_witness :
  array_uint16_le [0x34; 0x12] = 0x1234 /\ array_uint16_be [0x12; 0x34] = 0x1234.
Proof.
  assert (Forall is_byte [0x34; 0x12]) as H
    by (repeat constructor; unfold is_byte; lia).
  destruct (array_uint16_value [0x34; 0x12] H (le_n 2)) as (Hle & _ & _ & _ & Hbe).
  split; [exact Hle | exact Hbe].
Defined.

(** X21: on four bytes, [array_uint32_le] and [array_uint32_be] are the
    numbers the bytes denote in the two byte orders, also when the top
    byte has its high bit set and the shift by 24 reaches the sign bit of
    the [int] it is done in; the value is below 2^32. *)
Theorem array_uint32_value (array : list Z) :
  Forall is_byte array -> (4 <= length array)%nat ->
  let b0 := at_index array 0 in
  let b1 := at_index array 1 in
  let b2 := at_index array 2 in
  let b3 := at_index array 3 in
  array_uint32_le array = b0 + 2 ^ 8 * b1 + 2 ^ 16 * b2 + 2 ^ 24 * b3
  /\ array_uint32_be array = 2 ^ 24 * b0 + 2 ^ 16 * b1 + 2 ^ 8 * b2 + b3
  /\ array_uint32_be [b3; b2; b1; b0] = array_uint32_le array
  /\ 0 <= array_uint32_le array < 2 ^ 32.
Proof.
  intros Hbytes Hlen.
  destruct array as [|b0 [|b1 [|b2 [|b3 rest]]]]; simpl in Hlen; try lia.
  apply Forall_cons in Hbytes as [H0 Hbytes].
  apply Forall_cons in Hbytes as [H1 Hbytes].
  apply Forall_cons in Hbytes as [H2 Hbytes].
  apply Forall_cons in Hbytes as [H3 _].
  cbv zeta.
  assert (forall x0 x1 x2 x3,
             is_byte x0 -> is_byte x1 -> is_byte x2 -> is_byte x3 ->
             array_uint32_le [x0; x1; x2; x3]
             = x0 + 2 ^ 8 * x1 + 2 ^ 16 * x2 + 2 ^ 24 * x3) as Hle.
  { intros x0 x1 x2 x3 Hx0 Hx1 Hx2 Hx3.
    unfold array_uint32_le, at_index, to_uint. cbn [nth].
    rewrite !to_int_shiftl_low by (assumption || lia).
    rewrite (to_int_shiftl x3 24) by (assumption || lia).
    unfold is_byte in *.
    rewrite (lor_shiftl_add x0 x1 8) by lia.
    change (2 ^ 8) with 256.
    rewrite (lor_shiftl_add _ x2 16)
      by (change (2 ^ 16) with 65536; lia).
    change (2 ^ 16) with 65536.
    rewrite lor_shiftl_add by (change (2 ^ 24) with 16777216; lia).
    change (2 ^ 24) with 16777216. change (2 ^ 31) with 2147483648.
    change (2 ^ 32) with 4294967296.
    destruct (Z.leb_spec 2147483648 (x3 * 16777216)).
    - Z.div_mod_to_equations. lia.
    - rewrite Z.mod_small; lia. }
  assert (forall x0 x1 x2 x3,
             array_uint32_be [x3; x2; x1; x0]
             = array_uint32_le [x0; x1; x2; x3]) as Hbe.
  { intros. unfold array_uint32_be, array_uint32_le, at_index. cbn [nth].
    f_equal.
    apply Z.bits_inj'. intros i _. rewrite !Z.lor_spec.
    repeat match goal with
           | |- context [Z.testbit ?a i] => destruct (Z.testbit a i)
           end; reflexivity. }
  unfold at_index. cbn [nth].
  assert (array_uint32_le (b0 :: b1 :: b2 :: b3 :: rest)
          = array_uint32_le [b0; b1; b2; b3]) as -> by reflexivity.
  assert (array_uint32_be (b0 :: b1 :: b2 :: b3 :: rest)
          = array_uint32_be [b0; b1; b2; b3]) as -> by reflexivity.
  rewrite !Hbe, !Hle by assumption.
  unfold is_byte in *.
  change (2 ^ 8) with 256. change (2 ^ 16) with 65536.
  change (2 ^ 24) with 16777216. change (2 ^ 32) with 4294967296.
  repeat split; lia.
Qed.

Lemma array_uint32_value_witness :
  array_uint32_le [0xEF; 0xBE; 0xAD; 0xDE] = 0xDEADBEEF
  /\ array_uint32_be [0xDE; 0xAD; 0xBE; 0xEF] = 0xDEADBEEF.
Proof.
  assert (Forall is_byte [0xEF; 0xBE; 0xAD; 0xDE]) as H
    by (repeat constructor; unfold is_byte; lia).
  destruct (array_uint32_value [0xEF; 0xBE; 0xAD; 0xDE] H (le_n 4))
    as (Hle & _ & Hbe & _).
  split; [exact Hle|]. cbv zeta in Hbe. rewrite Hle in Hbe. exact Hbe.
Defined.

(** ** A session that did not open *)

(** X22: whichever step fails, a failed [open_ble_device] hands back the
    zeroed session: no handle of a resource that the call acquired and
    released again is left in it. Of the blocks the call allocated at most
    the descriptor is still live. *)
Theorem open_ble_device_failure_session env d devaddr family model st :
  let result := open_ble_device env (Some d) (Some devaddr) family model st in
  fst (fst result) <> DC_STATUS_SUCCESS ->
  snd (fst result) = Some device_data_zero
  /\ (heap (snd result) = heap st
      \/ exists l, heap st !! l = None
                   /\ heap (snd result) = <[l := B_descriptor]> (heap st)).
Proof.
  cbv zeta. intros Hrc. split.
  - revert Hrc. run_paths; intros Hrc; first [reflexivity | congruence].
  - now apply open_ble_device_failure_heap.
Qed.

Lemma open_ble_device_failure_session_witness :
  snd (fst (open_ble_device (env_unreachable catalog_full)
              (Some stale_session) (Some "6F1A-22C0")
              DC_FAMILY_SHEARWATER_PETREL 13 stale_state))
  = Some device_data_zero.
Proof.
  assert (fst (fst (open_ble_device (env_unreachable catalog_full)
                      (Some stale_session) (Some "6F1A-22C0")
                      DC_FAMILY_SHEARWATER_PETREL 13 stale_state))
          <> DC_STATUS_SUCCESS) as Hrc by (vm_compute; discriminate).
  destruct (open_ble_device_failure_session (env_unreachable catalog_full)
              stale_session "6F1A-22C0" DC_FAMILY_SHEARWATER_PETREL 13
              stale_state Hrc) as [Hdata _].
  exact Hdata.
Defined.
